(** * mastodon-streaming-listener: the session manager, embedded and verified

    A shallow embedding of [mastodon-streaming-listener.js].  The program is
    a single-threaded Node.js event loop: every handler runs to completion,
    and the only interleaving is the order in which the environment delivers
    events (socket events, timers, resolved promises, HTTP requests).  The
    embedding therefore consists of

    - the validators, as pure functions;
    - the process state (the [wsStorage] object, the sockets, the closures
      created by [connectForUser], timers, pending queries, the table of
      registrations);
    - every handler as a function from states to states, together with the
      list of outbound calls it makes;
    - an event type and a [step] function that dispatches an event to its
      handler, and [exec], its iteration over a trace.

    Logging through [npmlog] is not part of the model. *)

From Stdlib Require Import ZArith Lia Ascii String.
From stdpp Require Import base option strings list gmap.

Local Open Scope string_scope.
Local Open Scope list_scope.

(** ** Strings *)

(** [s.match(/[?&=/]/)] only decides whether one of the four characters
    occurs in [s]. *)
Definition invalid_token_char (a : ascii) : bool :=
  bool_decide (a = "?"%char) || bool_decide (a = "&"%char)
  || bool_decide (a = "="%char) || bool_decide (a = "/"%char).

Fixpoint string_exists (p : ascii -> bool) (s : string) : bool :=
  match s with
  | EmptyString => false
  | String a s' => p a || string_exists p s'
  end.

(** JavaScript truthiness of a value that is a string or absent
    ([undefined] / [null]): only a non-empty string is truthy. *)
Definition truthy (v : option string) : bool :=
  match v with
  | None => false
  | Some s => negb (bool_decide (s = ""))
  end.

(** [occurs a s]: the character [a] occurs in [s]. *)
Fixpoint occurs (a : ascii) (s : string) : Prop :=
  match s with
  | EmptyString => False
  | String b s' => a = b ∨ occurs a s'
  end.

(** ** JSON values

    The result of [JSON.parse] and the argument of [JSON.stringify].  An
    object is the list of its own properties, in order, with distinct names.
    Numbers are carried opaquely. *)
Module Json.

#[local] Set Warnings "-register-all".

Inductive t : Type :=
| Null
| Bool (b : bool)
| Number (n : Z)
| Str (s : string)
| Array (items : list t)
| Object (fields : list (string * t)).

Fixpoint assoc (k : string) (fields : list (string * t)) : option t :=
  match fields with
  | [] => None
  | (k', v) :: rest => if bool_decide (k' = k) then Some v else assoc k rest
  end.

(** The outcome of evaluating an expression that may throw. *)
Inductive outcome (A : Type) : Type :=
| Done (a : A)
| Throws (err : string).
Arguments Done {A} a.
Arguments Throws {A} err.

(** [v.k] for a property name [k] that no prototype defines (such as
    [event] and [payload]): reading a property of [null] throws a
    TypeError, a primitive or an array has no such property, an object
    yields its own property.  [None] is [undefined]. *)
Definition prop (v : t) (k : string) : outcome (option t) :=
  match v with
  | Null => Throws "TypeError"
  | Object fields => Done (assoc k fields)
  | _ => Done None
  end.

(** [v === s] for a string literal [s]: strict equality holds only for a
    string with the same characters ([None] is [undefined]). *)
Definition strict_eq_string (v : option t) (s : string) : bool :=
  match v with
  | Some (Str s') => bool_decide (s' = s)
  | _ => false
  end.

(** [JSON.stringify] of an object literal: a property whose value is
    [undefined] is left out.  The text produced is represented by the
    value it denotes. *)
Definition stringify_object (props : list (string * option t)) : t :=
  Object (omap (fun '(k, v) => pair k <$> v) props).

End Json.

(** ** The registration table

    One row of the Sequelize model [stream_listener_registration]; [r_id]
    is the primary key Sequelize adds to every model.  The text columns
    hold strings; a column that is NULL is not represented. *)
Record Registration : Type := mkRegistration {
  r_id : nat;
  lastUpdate : Z;
  instanceUrl : string;
  accessToken : string;
  appId : string;
  appSecret : string;
  callbackUrl : string;
  tag : string
}.

(** The registration key of the specification. *)
Definition reg_key (r : Registration) : string * string * string :=
  (instanceUrl r, appId r, tag r).

(** The template literal
    [`${registration.instanceUrl}:${registration.appId}:${registration.tag}`]
    of [connectForUser] and [disconnectForUser]. *)
Definition ws_key_of (i a t : string) : string := i +:+ ":" +:+ a +:+ ":" +:+ t.

Definition ws_key (r : Registration) : string :=
  ws_key_of (instanceUrl r) (appId r) (tag r).

(** ** Outbound calls *)
Inductive Effect : Type :=
| HttpPost (url : string) (body : Json.t) (headers : list (string * string))
| WsConnect (s : nat) (url : string)
| WsPing (s : nat)
| WsClose (s : nat)
| DbFindOne (key : string * string * string)
| DbDestroy (id : nat).

(** ** Configuration entries ([config/app_map.hjson],
    [config/instance_map.hjson]) *)
Record AppEntry : Type := { secret : string }.
Record InstanceEntry : Type := { replaceUrl : option string }.

(** ** [onMessage]

    [data] is the result of [JSON.parse] on the frame: [None] when the
    frame is not JSON text and [JSON.parse] throws.  The handler reads only
    the registration captured by its closure and changes no state. *)
Definition onMessage (registration : Registration) (data : option Json.t)
  : Json.outcome (list Effect) :=
  match data with
  | None => Json.Throws "SyntaxError"
  | Some json =>
    match Json.prop json "event" with
    | Json.Throws e => Json.Throws e
    | Json.Done ev =>
      if negb (Json.strict_eq_string ev "notification") then Json.Done []
      else
        match Json.prop json "payload" with
        | Json.Throws e => Json.Throws e
        | Json.Done payload =>
          let message := Json.stringify_object
            [("instanceUrl", Some (Json.Str (instanceUrl registration)));
             ("tag", Some (Json.Str (tag registration)));
             ("appId", Some (Json.Str (appId registration)));
             ("payload", payload)] in
          Json.Done [HttpPost (callbackUrl registration) message
                       [("Content-Type", "application/json")]]
        end
    end
  end.

(** ** Process state *)

(** [ws.readyState]: 0, 1, 2, 3. *)
Inductive ReadyState : Type := CONNECTING | OPEN | CLOSING | CLOSED.

#[global] Instance ReadyState_eq_dec : EqDecision ReadyState.
Proof. solve_decision. Defined.

(** A [WebSocket] object.  [s_owner] is the closure (the invocation of
    [connectForUser]) whose [onMessage], [onError] and [onClose] were
    attached to it by [reconnect]. *)
Record Socket : Type := mkSocket {
  s_url : string;
  s_owner : nat;
  readyState : ReadyState
}.

(** The variables captured by the handlers of one invocation of
    [connectForUser]: [registration], [let heartbeat], [let last_check]. *)
Record Closure : Type := mkClosure {
  c_registration : Registration;
  heartbeat : option nat;
  last_check : Z
}.

(** A [setInterval] handle created by an ['open'] handler; its callback
    captures the closure and the socket [ws] of that [reconnect] call. *)
Record Interval : Type := mkInterval {
  i_closure : nat;
  i_socket : nat;
  i_active : bool
}.

(** A pending [setTimeout(() => reconnect(), delay)]. *)
Record Timeout : Type := mkTimeout {
  t_delay : Z;
  t_closure : nat
}.

(** A pending [Registration.findOne(...).then(...)] of a heartbeat; the
    callback captures [now]. *)
Record Query : Type := mkQuery {
  q_closure : nat;
  q_now : Z
}.

(** [wsStorage] is a plain object used as a map from [ws_key] to socket.
    Every key contains two [:], so none names an inherited property and a
    lookup sees own properties only. *)
Record State : Type := mkState {
  wsStorage : gmap string nat;      (* const wsStorage = {} *)
  sockets : list Socket;            (* every WebSocket constructed so far *)
  closures : list Closure;
  intervals : list Interval;
  timeouts : list Timeout;
  queries : list Query;
  table : list Registration;        (* rows of the registration table *)
  next_id : nat;                    (* the table's auto-increment counter *)
  db_up : bool                      (* whether the store answers; when it
                                       does not, its promises reject *)
}.

Definition set_wsStorage (f : gmap string nat -> gmap string nat) (σ : State) : State :=
  mkState (f (wsStorage σ)) (sockets σ) (closures σ) (intervals σ)
          (timeouts σ) (queries σ) (table σ) (next_id σ) (db_up σ).
Definition set_sockets (f : list Socket -> list Socket) (σ : State) : State :=
  mkState (wsStorage σ) (f (sockets σ)) (closures σ) (intervals σ)
          (timeouts σ) (queries σ) (table σ) (next_id σ) (db_up σ).
Definition set_closures (f : list Closure -> list Closure) (σ : State) : State :=
  mkState (wsStorage σ) (sockets σ) (f (closures σ)) (intervals σ)
          (timeouts σ) (queries σ) (table σ) (next_id σ) (db_up σ).
Definition set_intervals (f : list Interval -> list Interval) (σ : State) : State :=
  mkState (wsStorage σ) (sockets σ) (closures σ) (f (intervals σ))
          (timeouts σ) (queries σ) (table σ) (next_id σ) (db_up σ).
Definition set_timeouts (f : list Timeout -> list Timeout) (σ : State) : State :=
  mkState (wsStorage σ) (sockets σ) (closures σ) (intervals σ)
          (f (timeouts σ)) (queries σ) (table σ) (next_id σ) (db_up σ).
Definition set_queries (f : list Query -> list Query) (σ : State) : State :=
  mkState (wsStorage σ) (sockets σ) (closures σ) (intervals σ)
          (timeouts σ) (f (queries σ)) (table σ) (next_id σ) (db_up σ).
Definition set_table (f : list Registration -> list Registration) (σ : State) : State :=
  mkState (wsStorage σ) (sockets σ) (closures σ) (intervals σ)
          (timeouts σ) (queries σ) (f (table σ)) (next_id σ) (db_up σ).
Definition set_next_id (n : nat) (σ : State) : State :=
  mkState (wsStorage σ) (sockets σ) (closures σ) (intervals σ)
          (timeouts σ) (queries σ) (table σ) n (db_up σ).
Definition set_db_up (b : bool) (σ : State) : State :=
  mkState (wsStorage σ) (sockets σ) (closures σ) (intervals σ)
          (timeouts σ) (queries σ) (table σ) (next_id σ) b.

(** The state of a freshly started process over a given table. *)
Definition boot (rows : list Registration) (n : nat) : State :=
  mkState ∅ [] [] [] [] [] rows n true.

(** A socket is live until it is closed, by [ws.close()] or by the peer. *)
Definition live (s : Socket) : bool :=
  bool_decide (readyState s = CONNECTING) || bool_decide (readyState s = OPEN).

(** The live sockets whose handlers belong to a closure of registry key
    [k]. *)
Definition socket_key (σ : State) (s : Socket) : option string :=
  ws_key ∘ c_registration <$> closures σ !! s_owner s.

Definition live_sockets (k : string) (σ : State) : list Socket :=
  filter (fun s => live s = true ∧ socket_key σ s = Some k) (sockets σ).

(** ** The store *)

Definition Registration_findOne (rows : list Registration)
    (key : string * string * string) : option Registration :=
  List.find (fun r => bool_decide (reg_key r = key)) rows.

(** [registration.destroy()]: deletes the row with the instance's primary
    key.  The promise it returns is dropped by the caller. *)
Definition Registration_destroy (registration : Registration) (σ : State) : State :=
  if db_up σ
  then set_table (filter (fun r => r_id r ≠ r_id registration)) σ
  else σ.

(** ** Timers and sockets *)

(** [clearInterval(heartbeat)]; [heartbeat] is [undefined] until the first
    ['open']. *)
Definition clearInterval (h : option nat) (σ : State) : State :=
  match h with
  | None => σ
  | Some i =>
    set_intervals (alter (fun iv => mkInterval (i_closure iv) (i_socket iv) false) i) σ
  end.

(** [ws.close()] starts the closing handshake; on a closed socket it does
    nothing. *)
Definition ws_close (s : nat) (σ : State) : State :=
  set_sockets (alter (fun w =>
    mkSocket (s_url w) (s_owner w)
      (if bool_decide (readyState w = CLOSED) then CLOSED else CLOSING)) s) σ.

(** ** [disconnectForUser] *)
Definition disconnectForUser (registration : Registration) (σ : State)
  : State * list Effect :=
  let k := ws_key registration in
  let '(σ1, e1) :=
    match wsStorage σ !! k with
    | Some ws => (set_wsStorage (delete k) (ws_close ws σ), [WsClose ws])
    | None => (σ, [])
    end in
  (Registration_destroy registration σ1, e1 ++ [DbDestroy (r_id registration)]).

(** ** Validators and handlers, over a fixed configuration *)
Section Listener.

(** [appMap] and [instanceMap] are read once from the configuration files
    when the process starts.  A lookup yields the entry's own property;
    [toLowerCase] is JavaScript's [String.prototype.toLowerCase]. *)
Variable appMap : gmap string AppEntry.
Variable instanceMap : gmap string InstanceEntry.
Variable toLowerCase : string -> string.

(** Each validator returns [null] ([None]) or an error message.  The
    arguments may be absent: the routes pass request fields. *)
Definition checkAppId (appId appSecret : option string) : option string :=
  if negb (truthy appId) then Some "missing app_id"
  else
    let id := default "" appId in
    match appMap !! id with
    | None => Some ("missing app configuration for app: " +:+ id)
    | Some appEntry =>
      if bool_decide (Some (secret appEntry) ≠ appSecret)
      then Some "app_secret not match."
      else None
    end.

Definition checkInstanceUrl (instanceUrl : option string) : option string :=
  if negb (truthy instanceUrl) then Some "missing instance_url"
  else
    let url := default "" instanceUrl in
    match instanceMap !! url with
    | Some _ => None
    | None =>
      match instanceMap !! "*" with
      | Some _ => None
      | None => Some ("missing instance configuration for instance: " +:+ url)
      end
    end.

Definition getReplaceUrl (instanceUrl : string) : string :=
  if truthy (Some instanceUrl) then
    match instanceMap !! instanceUrl with
    | Some instanceEntry =>
      if truthy (replaceUrl instanceEntry)
      then default "" (replaceUrl instanceEntry)
      else instanceUrl
    | None => instanceUrl
    end
  else instanceUrl.

Definition checkAccessToken (accessToken : option string) : option string :=
  if negb (truthy accessToken) then Some "missing access_token"
  else if string_exists invalid_token_char (default "" accessToken)
  then Some "access_token contains invalid character"
  else None.

(** *** The handlers of one invocation of [connectForUser]

    [c] is the index of the closure.  A handler exists only for a closure
    that was created, so the [None] branches below are never taken in a
    state reached by the program. *)

(** [const close = () => { clearInterval(heartbeat);
    disconnectForUser(registration) }] *)
Definition close (c : nat) (σ : State) : State * list Effect :=
  match closures σ !! c with
  | None => (σ, [])
  | Some cl => disconnectForUser (c_registration cl) (clearInterval (heartbeat cl) σ)
  end.

(** [setTimeout(() => reconnect(), 5000)] *)
Definition schedule_reconnect (c : nat) (σ : State) : State :=
  set_timeouts (fun ts => ts ++ [mkTimeout 5000 c]) σ.

Definition onError (c : nat) (σ : State) : State * list Effect :=
  (schedule_reconnect c σ, []).

Definition onClose (c : nat) (code : Z) (σ : State) : State * list Effect :=
  if bool_decide (code = 1000%Z) then close c σ
  else (schedule_reconnect c σ, []).

Definition streaming_url (url accessToken : string) : string :=
  url +:+ "/api/v1/streaming/?access_token=" +:+ accessToken +:+ "&stream=user".

(** [reconnect]: the new socket gets the closure's handlers and replaces
    whatever [wsStorage] held under the key. *)
Definition reconnect (c : nat) (σ : State) : State * list Effect :=
  match closures σ !! c with
  | None => (σ, [])
  | Some cl =>
    let registration := c_registration cl in
    let σ1 := clearInterval (heartbeat cl) σ in
    let url := getReplaceUrl (instanceUrl registration) in
    let target := streaming_url url (accessToken registration) in
    let ws := length (sockets σ1) in
    let σ2 := set_sockets (fun l => l ++ [mkSocket target c CONNECTING]) σ1 in
    (set_wsStorage <[ws_key registration := ws]> σ2, [WsConnect ws target])
  end.

(** The ['open'] handler installed by [reconnect] on socket [ws]. *)
Definition onOpen (c ws : nat) (σ : State) : State * list Effect :=
  match readyState <$> sockets σ !! ws with
  | Some OPEN =>
    let h := length (intervals σ) in
    let σ1 := set_intervals (fun l => l ++ [mkInterval c ws true]) σ in
    (set_closures (alter (fun cl =>
       mkClosure (c_registration cl) (Some h) (last_check cl)) c) σ1, [])
  | _ => (σ, [])
  end.

(** The body of the [setInterval] callback, every 10000 ms; [now] is
    [(new Date()).getTime()]. *)
Definition heartbeat_tick (c ws : nat) (now : Z) (σ : State) : State * list Effect :=
  match closures σ !! c with
  | None => (σ, [])
  | Some cl =>
    if (now - last_check cl >=? 86400000)%Z then
      let σ1 := set_closures (alter (fun cl =>
        mkClosure (c_registration cl) (heartbeat cl) now) c) σ in
      (set_queries (fun q => q ++ [mkQuery c now]) σ1,
       [WsPing ws; DbFindOne (reg_key (c_registration cl))])
    else (σ, [WsPing ws])
  end.

(** The [.then((r) => ...)] callback of the heartbeat's [findOne]. *)
Definition onFound (c : nat) (now : Z) (r : option Registration) (σ : State)
  : State * list Effect :=
  match r with
  | None => close c σ
  | Some r =>
    if (now - lastUpdate r >=? 86400000 * 3)%Z then close c σ
    else (σ, [])
  end.

(** *** [connectForUser] *)
Inductive Returned : Type := ReturnedTrue | ReturnedFalse | ReturnedUndefined.

Definition connectForUser (registration : Registration) (σ : State)
  : Returned * (State * list Effect) :=
  let ws_key := ws_key registration in
  match wsStorage σ !! ws_key with
  | Some _ => (ReturnedTrue, (σ, []))
  | None =>
    let c := length (closures σ) in
    let σ0 := set_closures (fun l => l ++ [mkClosure registration None 0]) σ in
    if truthy (checkAppId (Some (appId registration)) (Some (appSecret registration)))
    then (ReturnedFalse, close c σ0)
    else if truthy (checkInstanceUrl (Some (instanceUrl registration)))
    then (ReturnedFalse, close c σ0)
    else (ReturnedUndefined, reconnect c σ0)
  end.

(** *** Process start: restore the connections of the stored rows

    [Registration.findAll()] yields a snapshot of the table; [forEach]
    calls [connectForUser] on each row in turn. *)
Definition restore_rows (rows : list Registration) (σ : State) : State * list Effect :=
  foldl (fun acc registration =>
           let '(_, (σ', e)) := connectForUser registration acc.1 in
           (σ', acc.2 ++ e))
        (σ, []) rows.

Definition restore (σ : State) : State * list Effect :=
  if db_up σ then restore_rows (table σ) σ else (σ, []).

(** *** The HTTP routes

    The fields of the url-encoded request body.  The routes test the
    first four for absence; [callback_url] and [tag] are stored as
    given. *)
Record Body : Type := mkBody {
  b_instance_url : option string;
  b_access_token : option string;
  b_app_id : option string;
  b_app_secret : option string;
  b_callback_url : string;
  b_tag : string
}.

Inductive Response : Type :=
| Status (code : nat) (text : option string)
| Uncaught (err : string).

(** [findOrCreate] on the key, then [model.update] with the request's
    fields.  The chain of promises is taken as one step. *)
Definition upsert (now : Z) (i token a s cb t : string) (σ : State)
  : Registration * State :=
  match Registration_findOne (table σ) (i, a, t) with
  | Some m =>
    let m' := mkRegistration (r_id m) now i token a s cb t in
    (m', set_table (fmap (fun r => if bool_decide (r_id r = r_id m) then m' else r)) σ)
  | None =>
    let m' := mkRegistration (next_id σ) now i token a s cb t in
    (m', set_next_id (S (next_id σ)) (set_table (fun l => l ++ [m']) σ))
  end.

Definition register (now : Z) (b : Body) (σ : State)
  : Response * (State * list Effect) :=
  match b_instance_url b with
  | None => (Uncaught "TypeError", (σ, []))     (* undefined.toLowerCase() *)
  | Some u =>
    let instanceUrl := toLowerCase u in
    match checkInstanceUrl (Some instanceUrl) with
    | Some error => (Status 400 (Some error), (σ, []))
    | None =>
    match checkAccessToken (b_access_token b) with
    | Some error => (Status 400 (Some error), (σ, []))
    | None =>
    match checkAppId (b_app_id b) (b_app_secret b) with
    | Some error => (Status 400 (Some error), (σ, []))
    | None =>
      if db_up σ then
        let '(model, σ1) :=
          upsert now instanceUrl (default "" (b_access_token b))
                 (default "" (b_app_id b)) (default "" (b_app_secret b))
                 (b_callback_url b) (b_tag b) σ in
        (Status 202 None, (connectForUser model σ1).2)
      else (Status 202 None, (σ, []))
    end end end
  end.

Definition unregister (b : Body) (σ : State) : Response * (State * list Effect) :=
  match b_instance_url b with
  | None => (Uncaught "TypeError", (σ, []))
  | Some u =>
    let instanceUrl := toLowerCase u in
    match checkAppId (b_app_id b) (b_app_secret b) with
    | Some error => (Status 400 (Some error), (σ, []))
    | None =>
      if db_up σ then
        match Registration_findOne (table σ)
                (instanceUrl, default "" (b_app_id b), b_tag b) with
        | Some registration => (Status 202 None, disconnectForUser registration σ)
        | None => (Status 202 None, (σ, []))
        end
      else (Status 202 None, (σ, []))
    end
  end.

(** ** The event loop *)
Inductive Event : Type :=
| SocketOpen (ws : nat)                       (* handshake completed *)
| SocketMessage (ws : nat) (data : option Json.t)
| SocketError (ws : nat)
| SocketClose (ws : nat) (code : Z)
| TimeoutFires (k : nat)                      (* the k-th pending timeout *)
| IntervalFires (h : nat) (now : Z)
| QueryResolves (k : nat)                     (* the k-th pending findOne *)
| StoreAvailability (up : bool)
| Start                                       (* Registration.sync() ... *)
| PostRegister (now : Z) (b : Body)
| PostUnregister (b : Body).

Definition set_readyState (ws : nat) (rs : ReadyState) (σ : State) : State :=
  set_sockets (alter (fun w => mkSocket (s_url w) (s_owner w) rs) ws) σ.

(** One turn of the event loop.  [None]: the event cannot occur in this
    state, or its handler throws, and an exception that escapes a handler
    of a socket or of a timer ends the process. *)
Definition step (ev : Event) (σ : State) : option (State * list Effect) :=
  match ev with
  | SocketOpen ws =>
    w ← sockets σ !! ws;
    if bool_decide (readyState w = CONNECTING)
    then Some (onOpen (s_owner w) ws (set_readyState ws OPEN σ))
    else None
  | SocketMessage ws data =>
    w ← sockets σ !! ws;
    cl ← closures σ !! s_owner w;
    if bool_decide (readyState w = OPEN) then
      match onMessage (c_registration cl) data with
      | Json.Done e => Some (σ, e)
      | Json.Throws _ => None
      end
    else None
  | SocketError ws =>
    w ← sockets σ !! ws;
    if bool_decide (readyState w = CLOSED) then None
    else Some (onError (s_owner w) σ)
  | SocketClose ws code =>
    w ← sockets σ !! ws;
    if bool_decide (readyState w = CLOSED) then None
    else Some (onClose (s_owner w) code (set_readyState ws CLOSED σ))
  | TimeoutFires k =>
    t ← timeouts σ !! k;
    Some (reconnect (t_closure t) (set_timeouts (delete k) σ))
  | IntervalFires h now =>
    iv ← intervals σ !! h;
    if i_active iv then Some (heartbeat_tick (i_closure iv) (i_socket iv) now σ)
    else None
  | QueryResolves k =>
    q ← queries σ !! k;
    cl ← closures σ !! q_closure q;
    let σ1 := set_queries (delete k) σ in
    if db_up σ then
      Some (onFound (q_closure q) (q_now q)
              (Registration_findOne (table σ) (reg_key (c_registration cl))) σ1)
    else Some (σ1, [])
  | StoreAvailability up => Some (set_db_up up σ, [])
  | Start => Some (restore σ)
  | PostRegister now b => Some (register now b σ).2
  | PostUnregister b => Some (unregister b σ).2
  end.

(** A trace of events, with the outbound calls in order. *)
Fixpoint exec (evs : list Event) (σ : State) : option (State * list Effect) :=
  match evs with
  | [] => Some (σ, [])
  | ev :: evs' =>
    '(σ1, e1) ← step ev σ;
    '(σ2, e2) ← exec evs' σ1;
    Some (σ2, e1 ++ e2)
  end.

End Listener.

(** ** Relations between states, used to state the properties *)

(** An access token that is missing, empty, or contains one of [? & = /]. *)
Definition malformed_token (t : option string) : Prop :=
  match t with
  | None => True
  | Some s =>
    s = "" ∨ occurs "?"%char s ∨ occurs "&"%char s
    ∨ occurs "="%char s ∨ occurs "/"%char s
  end.

(** Every closure of [σ] is still in [σ'], with the same registration and
    a [last_check] that is not smaller. *)
Definition closures_advance (σ σ' : State) : Prop :=
  ∀ c cl, closures σ !! c = Some cl →
    ∃ cl', closures σ' !! c = Some cl'
           ∧ c_registration cl' = c_registration cl
           ∧ (last_check cl ≤ last_check cl')%Z.

(** A registration whose access token is not malformed. *)
Definition wellformed (r : Registration) : Prop :=
  ¬ malformed_token (Some (accessToken r)).

(** The socket was constructed by [reconnect] for a closure whose
    registration is well-formed. *)
Definition socket_of_closure (instanceMap : gmap string InstanceEntry)
    (σ : State) (w : Socket) : Prop :=
  ∃ cl, closures σ !! s_owner w = Some cl
        ∧ wellformed (c_registration cl)
        ∧ s_url w = streaming_url
                      (getReplaceUrl instanceMap (instanceUrl (c_registration cl)))
                      (accessToken (c_registration cl)).

(** No malformed token in the table, in a closure, or in the URL of a
    socket. *)
Definition tokens_wellformed (instanceMap : gmap string InstanceEntry)
    (σ : State) : Prop :=
  Forall wellformed (table σ)
  ∧ Forall (fun cl => wellformed (c_registration cl)) (closures σ)
  ∧ Forall (socket_of_closure instanceMap σ) (sockets σ).

(** ** Further relations, for the properties of the routes and of the
    registry *)

(** The two validators [connectForUser] runs accept the registration. *)
Definition validates (appMap : gmap string AppEntry)
    (instanceMap : gmap string InstanceEntry) (r : Registration) : Prop :=
  checkAppId appMap (Some (appId r)) (Some (appSecret r)) = None
  ∧ checkInstanceUrl instanceMap (Some (instanceUrl r)) = None.

(** The three validators of [/register] accept the request body; [u] is
    the [instance_url] as sent. *)
Definition accepted (appMap : gmap string AppEntry)
    (instanceMap : gmap string InstanceEntry) (toLowerCase : string → string)
    (b : Body) (u : string) : Prop :=
  b_instance_url b = Some u
  ∧ checkInstanceUrl instanceMap (Some (toLowerCase u)) = None
  ∧ checkAccessToken (b_access_token b) = None
  ∧ checkAppId appMap (b_app_id b) (b_app_secret b) = None.

(** The URL [reconnect] opens for a registration. *)
Definition connect_url (instanceMap : gmap string InstanceEntry)
    (r : Registration) : string :=
  streaming_url (getReplaceUrl instanceMap (instanceUrl r)) (accessToken r).

(** Every socket of [σ] is still a socket of [σ'], under the same index,
    with the same URL and the same handlers. *)
Definition sockets_persist (σ σ' : State) : Prop :=
  ∀ ws w, sockets σ !! ws = Some w →
    ∃ w', sockets σ' !! ws = Some w'
          ∧ s_url w' = s_url w ∧ s_owner w' = s_owner w.

(** Every entry of [wsStorage] is a socket that exists and that was
    constructed by a closure of that key. *)
Definition registry_ok (σ : State) : Prop :=
  ∀ k ws, wsStorage σ !! k = Some ws →
    ∃ w cl, sockets σ !! ws = Some w
            ∧ closures σ !! s_owner w = Some cl
            ∧ ws_key (c_registration cl) = k.

(** A step that adds no socket and no registry entry. *)
Definition quiet (σ σ' : State) : Prop :=
  closures_advance σ σ'
  ∧ sockets_persist σ σ'
  ∧ (∀ k ws, wsStorage σ' !! k = Some ws → wsStorage σ !! k = Some ws).

(** A step that keeps the sockets and the consistency of the registry. *)
Definition keeps (σ σ' : State) : Prop :=
  closures_advance σ σ' ∧ sockets_persist σ σ' ∧ (registry_ok σ → registry_ok σ').

(** The callback deliveries among the outbound calls. *)
Definition is_post (e : Effect) : bool :=
  match e with
  | HttpPost _ _ _ => true
  | _ => false
  end.

Definition posts (e : list Effect) : list Effect := List.filter is_post e.

(** What the frame of an event delivers, the socket and its registration
    being looked up in [σ]. *)
Definition delivery (σ : State) (ev : Event) : list Effect :=
  match ev with
  | SocketMessage ws data =>
    match sockets σ !! ws with
    | Some w =>
      match closures σ !! s_owner w with
      | Some cl =>
        match onMessage (c_registration cl) data with
        | Json.Done e => e
        | Json.Throws _ => []
        end
      | None => []
      end
    | None => []
    end
  | _ => []
  end.

(** ** A concrete deployment

    The scenario of the specification: one app, a wildcard instance entry,
    one stored registration. *)
Module Example.

Definition lower (a : ascii) : ascii :=
  let n := nat_of_ascii a in
  if (65 <=? n)%nat && (n <=? 90)%nat then ascii_of_nat (n + 32) else a.

(** [toLowerCase] on ASCII text. *)
Fixpoint toLowerCase (s : string) : string :=
  match s with
  | EmptyString => EmptyString
  | String a s' => String (lower a) (toLowerCase s')
  end.

Definition appMap : gmap string AppEntry := {[ "app1" := {| secret := "s3cret" |} ]}.

Definition instanceMap : gmap string InstanceEntry :=
  {[ "*" := {| replaceUrl := None |} ]}.

Definition t0 : Z := 1700000000000.

Definition registration : Registration :=
  mkRegistration 1 t0 "https://example.social" "abc123" "app1" "s3cret"
                 "https://client/cb" "t1".

Definition key : string := "https://example.social:app1:t1".

Definition url : string :=
  "https://example.social/api/v1/streaming/?access_token=abc123&stream=user".

(** The process before [Start], after [Start], and after the handshake. *)
Definition booted : State := boot [registration] 2.

Definition connecting : State :=
  mkState {[ key := 0 ]} [mkSocket url 0 CONNECTING]
          [mkClosure registration None 0] [] [] [] [registration] 2 true.

Definition opened : State :=
  mkState {[ key := 0 ]} [mkSocket url 0 OPEN]
          [mkClosure registration (Some 0) 0] [mkInterval 0 0 true] [] []
          [registration] 2 true.

Definition frame : Json.t :=
  Json.Object [("event", Json.Str "notification");
               ("payload", Json.Object [("id", Json.Number 42)])].

Definition body : Body :=
  mkBody (Some "https://Example.social") (Some "abc123") (Some "app1")
         (Some "s3cret") "https://client/cb" "t1".

(** A stored row whose token would corrupt the query string. *)
Definition bad_token : Registration :=
  mkRegistration 1 t0 "https://example.social" "abc/123" "app1" "s3cret"
                 "https://client/cb" "t1".

(** Two registrations with different keys and the same [ws_key]. *)
Definition first : Registration :=
  mkRegistration 1 t0 "https://example.social" "tok1" "app1" "s3cret"
                 "https://client/one" "x:app1:y".

Definition second : Registration :=
  mkRegistration 2 t0 "https://example.social:app1:x" "tok2" "app1" "s3cret"
                 "https://client/two" "y".

End Example.

(** ** A session that outlives its row

    A socket closes abnormally and, before the reconnect fires, the client
    unregisters and registers again.  The pending reconnect revives the
    session of the first registration; the second registration finds it
    in the registry ("Already registered") and its row gets a new primary
    key. *)
Module Revived.



End Revived.

(** * Properties *)

(** ** What [disconnectForUser] and [close] change *)

Lemma Registration_destroy_frame registration σ :
  let σ' := Registration_destroy registration σ in
  wsStorage σ' = wsStorage σ ∧ sockets σ' = sockets σ ∧
  closures σ' = closures σ ∧ intervals σ' = intervals σ ∧
  timeouts σ' = timeouts σ ∧ queries σ' = queries σ ∧ db_up σ' = db_up σ.
Proof. unfold Registration_destroy. destruct (db_up σ) eqn:E; simpl; auto 10. Qed.

Lemma Registration_destroy_table registration σ :
  table (Registration_destroy registration σ) =
  if db_up σ then filter (fun r => r_id r ≠ r_id registration) (table σ)
  else table σ.
Proof. unfold Registration_destroy. destruct (db_up σ); reflexivity. Qed.

Lemma disconnectForUser_wsStorage registration σ :
  wsStorage (disconnectForUser registration σ).1 =
  delete (ws_key registration) (wsStorage σ).
Proof.
  unfold disconnectForUser.
  destruct (wsStorage σ !! ws_key registration) as [ws|] eqn:E; simpl.
  - apply Registration_destroy_frame.
  - rewrite delete_id by exact E. apply Registration_destroy_frame.
Qed.

Lemma disconnectForUser_sockets registration σ :
  sockets (disconnectForUser registration σ).1 =
  match wsStorage σ !! ws_key registration with
  | Some ws => sockets (ws_close ws σ)
  | None => sockets σ
  end.
Proof.
  unfold disconnectForUser.
  destruct (wsStorage σ !! ws_key registration); simpl;
    apply Registration_destroy_frame.
Qed.

Lemma disconnectForUser_table registration σ :
  table (disconnectForUser registration σ).1 =
  if db_up σ then filter (fun r => r_id r ≠ r_id registration) (table σ)
  else table σ.
Proof.
  unfold disconnectForUser.
  destruct (wsStorage σ !! ws_key registration); simpl;
    rewrite Registration_destroy_table; reflexivity.
Qed.

Lemma disconnectForUser_effects registration σ :
  (disconnectForUser registration σ).2 =
  match wsStorage σ !! ws_key registration with
  | Some ws => [WsClose ws; DbDestroy (r_id registration)]
  | None => [DbDestroy (r_id registration)]
  end.
Proof.
  unfold disconnectForUser.
  destruct (wsStorage σ !! ws_key registration); reflexivity.
Qed.

Lemma disconnectForUser_frame registration σ :
  let σ' := (disconnectForUser registration σ).1 in
  closures σ' = closures σ ∧ intervals σ' = intervals σ ∧
  timeouts σ' = timeouts σ ∧ queries σ' = queries σ ∧ db_up σ' = db_up σ.
Proof.
  unfold disconnectForUser.
  destruct (wsStorage σ !! ws_key registration); simpl;
    destruct (Registration_destroy_frame registration σ) as (_ & _ & ? & ? & ? & ? & ?);
    try (destruct (Registration_destroy_frame registration
           (set_wsStorage (delete (ws_key registration)) (ws_close n σ)))
           as (_ & _ & ? & ? & ? & ? & ?)); simpl in *; auto 10.
Qed.

Lemma filter_id_absent (id : nat) (rows : list Registration) (r : Registration) :
  r ∈ filter (fun r => r_id r ≠ id) rows → r_id r ≠ id.
Proof. intros H. apply list_elem_of_filter in H. tauto. Qed.

(** After [ws.close()] the socket is no longer live. *)
Lemma ws_close_not_live ws σ w :
  sockets (ws_close ws σ) !! ws = Some w → live w = false.
Proof.
  unfold ws_close; simpl. rewrite list_lookup_alter_eq.
  destruct (sockets σ !! ws) as [w0|]; simpl; [|discriminate].
  intros [= <-]. unfold live; simpl.
  destruct (bool_decide (readyState w0 = CLOSED)); reflexivity.
Qed.

(** ** Stopping a session *)

Lemma clearInterval_frame h σ :
  let σ' := clearInterval h σ in
  wsStorage σ' = wsStorage σ ∧ sockets σ' = sockets σ ∧
  closures σ' = closures σ ∧ timeouts σ' = timeouts σ ∧
  queries σ' = queries σ ∧ table σ' = table σ ∧ db_up σ' = db_up σ.
Proof. destruct h; simpl; auto 10. Qed.

Lemma clearInterval_inactive h σ iv :
  intervals (clearInterval (Some h) σ) !! h = Some iv → i_active iv = false.
Proof.
  simpl. rewrite list_lookup_alter_eq.
  destruct (intervals σ !! h); simpl; [|discriminate].
  intros [= <-]. reflexivity.
Qed.


(** C7, as the code has it.  [disconnectForUser] always calls [destroy] on
    the registration.  When [wsStorage] holds a socket under the key, that
    socket is closed and the key removed; when it holds none, registry and
    sockets are left as they are. *)
Theorem disconnectForUser_closes_removes_destroys registration σ :
  let k := ws_key registration in
  let σ' := (disconnectForUser registration σ).1 in
  let e := (disconnectForUser registration σ).2 in
  (∀ ws, wsStorage σ !! k = Some ws →
     e = [WsClose ws; DbDestroy (r_id registration)]
     ∧ (∀ w, sockets σ' !! ws = Some w → live w = false)
     ∧ wsStorage σ' = delete k (wsStorage σ))
  ∧ (wsStorage σ !! k = None →
     e = [DbDestroy (r_id registration)]
     ∧ sockets σ' = sockets σ
     ∧ wsStorage σ' = wsStorage σ)
  ∧ (db_up σ = true → ∀ r, r ∈ table σ' → r_id r ≠ r_id registration).
Proof.
  intros k σ' e. subst σ' e. repeat split.
  - rewrite disconnectForUser_effects. fold k. rewrite H. reflexivity.
  - intros w Hw. rewrite disconnectForUser_sockets in Hw. fold k in Hw.
    rewrite H in Hw. eapply ws_close_not_live, Hw.
  - apply disconnectForUser_wsStorage.
  - rewrite disconnectForUser_effects. fold k. rewrite H. reflexivity.
  - rewrite disconnectForUser_sockets. fold k. rewrite H. reflexivity.
  - rewrite disconnectForUser_wsStorage. apply delete_id, H.
  - intros Hdb r Hr. rewrite disconnectForUser_table, Hdb in Hr.
    eapply filter_id_absent, Hr.
Qed.

(** C9, as the code has it.  [disconnectForUser] removes the key from
    [wsStorage] before it calls [destroy] and does not look at the outcome:
    the key is removed whether or not the store answers, and when it does
    not the table keeps its rows. *)
Theorem disconnectForUser_removes_whatever_destroy_does registration σ :
  let σ' := (disconnectForUser registration σ).1 in
  wsStorage σ' = delete (ws_key registration) (wsStorage σ)
  ∧ (db_up σ = false → table σ' = table σ).
Proof.
  split.
  - apply disconnectForUser_wsStorage.
  - intros Hdb. rewrite disconnectForUser_table, Hdb. reflexivity.
Qed.

(** ** Validation of the access token *)

Lemma string_exists_invalid_token_char s :
  string_exists invalid_token_char s = true ↔
  occurs "?"%char s ∨ occurs "&"%char s ∨ occurs "="%char s ∨ occurs "/"%char s.
Proof.
  induction s as [|a s IH]; simpl.
  - split; [discriminate|tauto].
  - rewrite orb_true_iff, IH. unfold invalid_token_char.
    rewrite !orb_true_iff, !bool_decide_eq_true.
    split; intros H; intuition (subst; auto).
Qed.

Lemma checkAccessToken_rejects_malformed t :
  malformed_token t ↔ checkAccessToken t ≠ None.
Proof.
  unfold checkAccessToken, malformed_token.
  destruct t as [s|]; simpl; [|split; [discriminate|trivial]].
  destruct (bool_decide_reflect (s = "")) as [->|Hne]; simpl.
  - split; [discriminate|auto].
  - rewrite <- string_exists_invalid_token_char.
    destruct (string_exists invalid_token_char s); split;
      try discriminate; try tauto; try congruence.
    intros [?|?]; congruence.
Qed.

(** ** Closures along an execution

    No handler removes a closure, changes its registration, or moves its
    [last_check] backwards. *)

Lemma closures_advance_refl σ : closures_advance σ σ.
Proof. intros c cl H. exists cl. split; [exact H|]. split; [reflexivity|lia]. Qed.

Lemma closures_advance_trans σ1 σ2 σ3 :
  closures_advance σ1 σ2 → closures_advance σ2 σ3 → closures_advance σ1 σ3.
Proof.
  intros H12 H23 c cl H.
  destruct (H12 c cl H) as (cl2 & H2 & Hr2 & Hl2).
  destruct (H23 c cl2 H2) as (cl3 & H3 & Hr3 & Hl3).
  exists cl3. split; [exact H3|]. split; [congruence|lia].
Qed.

Lemma closures_advance_same σ σ' : closures σ' = closures σ → closures_advance σ σ'.
Proof. intros E c cl H. rewrite E. apply closures_advance_refl, H. Qed.

Lemma close_closures c σ : closures (close c σ).1 = closures σ.
Proof.
  unfold close. destruct (closures σ !! c) as [cl|]; [|reflexivity].
  destruct (disconnectForUser_frame (c_registration cl) (clearInterval (heartbeat cl) σ))
    as (-> & _).
  apply clearInterval_frame.
Qed.

Lemma onClose_closures c code σ : closures (onClose c code σ).1 = closures σ.
Proof.
  unfold onClose. destruct (bool_decide (code = 1000%Z)); [apply close_closures|reflexivity].
Qed.

Lemma onFound_closures c now r σ : closures (onFound c now r σ).1 = closures σ.
Proof.
  unfold onFound. destruct r as [row|]; [|apply close_closures].
  destruct (now - lastUpdate row >=? 86400000 * 3)%Z; [apply close_closures|reflexivity].
Qed.

Lemma onOpen_advance c ws σ : closures_advance σ (onOpen c ws σ).1.
Proof.
  unfold onOpen.
  destruct (readyState <$> sockets σ !! ws) as [[| | |]|];
    try apply closures_advance_refl.
  intros c' cl H; simpl.
  destruct (decide (c = c')) as [->|Hne].
  - rewrite list_lookup_alter_eq, H; simpl. eexists. split; [reflexivity|].
    simpl. split; [reflexivity|lia].
  - rewrite list_lookup_alter_ne by exact Hne. apply closures_advance_refl, H.
Qed.

Lemma heartbeat_tick_advance c ws now σ : closures_advance σ (heartbeat_tick c ws now σ).1.
Proof.
  unfold heartbeat_tick.
  destruct (closures σ !! c) as [cl0|] eqn:E; [|apply closures_advance_refl].
  destruct (Z.geb_spec (now - last_check cl0) 86400000) as [Hge|];
    [|apply closures_advance_refl].
  intros c' cl H; simpl.
  destruct (decide (c = c')) as [->|Hne].
  - rewrite list_lookup_alter_eq, H; simpl. eexists. split; [reflexivity|].
    simpl. split; [reflexivity|]. assert (cl = cl0) as -> by congruence. lia.
  - rewrite list_lookup_alter_ne by exact Hne. apply closures_advance_refl, H.
Qed.

Lemma heartbeat_tick_effects c ws (now : Z) σ cl :
  closures σ !! c = Some cl →
  (heartbeat_tick c ws now σ).2 =
  if (86400000 <=? now - last_check cl)%Z
  then [WsPing ws; DbFindOne (reg_key (c_registration cl))]
  else [WsPing ws].
Proof.
  intros H. unfold heartbeat_tick. rewrite H.
  destruct (Z.geb_spec (now - last_check cl) 86400000),
           (Z.leb_spec 86400000 (now - last_check cl)); try lia; reflexivity.
Qed.

Lemma heartbeat_tick_last_check c ws (now : Z) σ cl :
  closures σ !! c = Some cl →
  (86400000 ≤ now - last_check cl)%Z →
  closures (heartbeat_tick c ws now σ).1 !! c =
  Some (mkClosure (c_registration cl) (heartbeat cl) now).
Proof.
  intros H Hge. unfold heartbeat_tick. rewrite H.
  destruct (Z.geb_spec (now - last_check cl) 86400000); [|lia].
  simpl. rewrite list_lookup_alter_eq, H. reflexivity.
Qed.

(** ** The registry key

    [ws_key] joins the three fields with [:].  The key determines the
    fields as long as [appId] and [tag] contain no [:]. *)

Lemma append_cons a (s t : string) : String a s +:+ t = String a (s +:+ t).
Proof. reflexivity. Qed.

Lemma append_nil_l (s : string) : "" +:+ s = s.
Proof. reflexivity. Qed.

Lemma append_assoc (s1 s2 s3 : string) : (s1 +:+ s2) +:+ s3 = s1 +:+ s2 +:+ s3.
Proof.
  induction s1 as [|a s1 IH]; [reflexivity|].
  rewrite !append_cons, IH. reflexivity.
Qed.

Lemma occurs_append a (s1 s2 : string) :
  occurs a (s1 +:+ s2) ↔ occurs a s1 ∨ occurs a s2.
Proof.
  induction s1 as [|b s1 IH]; [simpl; tauto|].
  rewrite append_cons. simpl. rewrite IH. tauto.
Qed.

Lemma split_at_last_colon (x y x' y' : string) :
  ¬ occurs ":"%char y → ¬ occurs ":"%char y' →
  x +:+ ":" +:+ y = x' +:+ ":" +:+ y' → x = x' ∧ y = y'.
Proof.
  intros Hy Hy'. revert x'.
  induction x as [|c x IH]; intros [|c' x'];
    repeat (rewrite append_cons || rewrite append_nil_l); intros E.
  - injection E as ->. auto.
  - injection E as <- ->. exfalso. apply Hy.
    apply occurs_append. right. simpl. auto.
  - injection E as -> <-. exfalso. apply Hy'.
    apply occurs_append. right. simpl. auto.
  - injection E as -> E. destruct (IH _ E) as [-> ->]. auto.
Qed.

Lemma ws_key_of_injective_without_colon (i a t i' a' t' : string) :
  ¬ occurs ":"%char a → ¬ occurs ":"%char t →
  ¬ occurs ":"%char a' → ¬ occurs ":"%char t' →
  ws_key_of i a t = ws_key_of i' a' t' → (i, a, t) = (i', a', t').
Proof.
  intros Ha Ht Ha' Ht' E.
  assert (∀ x y z, ws_key_of x y z = (x +:+ ":" +:+ y) +:+ ":" +:+ z) as Hkey.
  { intros x y z. unfold ws_key_of. rewrite append_assoc. reflexivity. }
  rewrite !Hkey in E.
  apply split_at_last_colon in E as [E ->]; [|assumption..].
  apply split_at_last_colon in E as [-> ->]; [|assumption..].
  reflexivity.
Qed.

(** ** Handlers that read the configuration *)

Section Properties.

Context (appMap : gmap string AppEntry) (instanceMap : gmap string InstanceEntry)
        (toLowerCase : string -> string).

Local Abbreviation connectForUser := (connectForUser appMap instanceMap).
Local Abbreviation reconnect := (reconnect instanceMap).
Local Abbreviation step := (step appMap instanceMap toLowerCase).
Local Abbreviation exec := (exec appMap instanceMap toLowerCase).
Local Abbreviation register := (register appMap instanceMap toLowerCase).

(** ** Forwarding of frames *)

(** C1.  While a socket is open, a frame whose envelope has the event type
    [notification] causes exactly one HTTP POST to the registration's
    [callbackUrl], with header [Content-Type: application/json] and the
    JSON body [{instanceUrl, tag, appId, payload}] in which [payload] is
    the value the frame carried; a frame with any other event type causes
    no outbound call and no exception.  A notification frame always yields
    exactly one POST, whatever else it carries.  The state is unchanged in
    all cases. *)
Theorem notification_frames_are_posted_once σ ws w cl :
  sockets σ !! ws = Some w →
  readyState w = OPEN →
  closures σ !! s_owner w = Some cl →
  let registration := c_registration cl in
  (∀ fields payload,
     Json.assoc "event" fields = Some (Json.Str "notification") →
     Json.assoc "payload" fields = Some payload →
     step (SocketMessage ws (Some (Json.Object fields))) σ =
     Some (σ, [HttpPost (callbackUrl registration)
                 (Json.Object [("instanceUrl", Json.Str (instanceUrl registration));
                               ("tag", Json.Str (tag registration));
                               ("appId", Json.Str (appId registration));
                               ("payload", payload)])
                 [("Content-Type", "application/json")]]))
  ∧ (∀ json,
       Json.prop json "event" = Json.Done (Some (Json.Str "notification")) →
       ∃ body,
         step (SocketMessage ws (Some json)) σ =
         Some (σ, [HttpPost (callbackUrl registration) body
                     [("Content-Type", "application/json")]]))
  ∧ (∀ json ev,
       Json.prop json "event" = Json.Done ev →
       ev ≠ Some (Json.Str "notification") →
       step (SocketMessage ws (Some json)) σ = Some (σ, [])).
Proof.
  intros Hw Hopen Hcl registration.
  assert (∀ data, step (SocketMessage ws data) σ =
                  match onMessage registration data with
                  | Json.Done e => Some (σ, e)
                  | Json.Throws _ => None
                  end) as Hstep.
  { intros data. unfold step; simpl. rewrite Hw; simpl. rewrite Hcl; simpl.
    rewrite bool_decide_eq_true_2 by exact Hopen. reflexivity. }
  split; [|split].
  - intros fields payload Hev Hpl. rewrite Hstep.
    unfold onMessage; simpl. rewrite Hev, Hpl; simpl. reflexivity.
  - intros json Hev. rewrite Hstep. unfold onMessage. rewrite Hev; simpl.
    destruct json; try discriminate Hev. simpl. eauto.
  - intros json ev Hev Hne. rewrite Hstep.
    unfold onMessage. rewrite Hev.
    assert (Json.strict_eq_string ev "notification" = false) as ->; [|reflexivity].
    destruct ev as [[| | |s| |]|]; simpl; try reflexivity.
    apply bool_decide_eq_false_2. intros ->. apply Hne. reflexivity.
Qed.

(** ** Starting a session twice *)

(** C6.  When [wsStorage] already holds a socket under the registration's
    key, [connectForUser] returns [true] ("Already registered") and leaves
    the whole state as it was: no socket is constructed, the existing
    session is not altered, the store is not touched, no outbound call is
    made. *)
Theorem connectForUser_already_registered registration σ ws :
  wsStorage σ !! ws_key registration = Some ws →
  connectForUser registration σ = (ReturnedTrue, (σ, [])).
Proof. intros H. unfold connectForUser. rewrite H. reflexivity. Qed.

(** ** Closures along an execution, continued *)

Lemma reconnect_closures c σ : closures (reconnect c σ).1 = closures σ.
Proof.
  unfold reconnect. destruct (closures σ !! c) as [cl|]; [|reflexivity].
  simpl. apply clearInterval_frame.
Qed.

Lemma connectForUser_advance registration σ :
  closures_advance σ (connectForUser registration σ).2.1.
Proof.
  unfold connectForUser.
  destruct (wsStorage σ !! ws_key registration); [apply closures_advance_refl|].
  set (σ0 := set_closures _ σ).
  assert (closures_advance σ σ0) as H0.
  { intros c cl H. exists cl. split; [|split; [reflexivity|lia]].
    subst σ0; simpl. rewrite lookup_app_l; [exact H|].
    eapply lookup_lt_Some, H. }
  destruct (truthy (checkAppId _ _ _)); simpl.
  { eapply closures_advance_trans; [exact H0|].
    apply closures_advance_same, close_closures. }
  destruct (truthy (checkInstanceUrl _ _)); simpl.
  { eapply closures_advance_trans; [exact H0|].
    apply closures_advance_same, close_closures. }
  eapply closures_advance_trans; [exact H0|].
  apply closures_advance_same, reconnect_closures.
Qed.

Lemma restore_rows_advance rows σ e :
  closures_advance σ (foldl (fun acc registration =>
             let '(_, (σ', e)) := connectForUser registration acc.1 in
             (σ', acc.2 ++ e)) (σ, e) rows).1.
Proof.
  revert σ e. induction rows as [|r rows IH]; intros σ e; simpl.
  - apply closures_advance_refl.
  - pose proof (connectForUser_advance r σ) as Hr.
    destruct (connectForUser r σ) as [ret [σ' e']]; simpl in *.
    eapply closures_advance_trans; [exact Hr|apply IH].
Qed.

Lemma restore_advance σ : closures_advance σ (restore appMap instanceMap σ).1.
Proof.
  unfold restore. destruct (db_up σ); [|apply closures_advance_refl].
  apply restore_rows_advance.
Qed.

Lemma upsert_closures now i token a sec cb t σ :
  closures (upsert now i token a sec cb t σ).2 = closures σ.
Proof. unfold upsert. destruct (Registration_findOne _ _); reflexivity. Qed.

Lemma register_advance now b σ : closures_advance σ (register now b σ).2.1.
Proof.
  unfold register.
  destruct (b_instance_url b); [|apply closures_advance_refl].
  destruct (checkInstanceUrl _ _); [apply closures_advance_refl|].
  destruct (checkAccessToken _); [apply closures_advance_refl|].
  destruct (checkAppId _ _ _); [apply closures_advance_refl|].
  destruct (db_up σ); [|apply closures_advance_refl].
  match goal with |- context [upsert ?n ?i ?k ?a ?s ?c ?t σ] =>
    pose proof (upsert_closures n i k a s c t σ) as Hu;
    destruct (upsert n i k a s c t σ) as [model σ1] end.
  simpl in *.
  eapply closures_advance_trans; [apply closures_advance_same, Hu|].
  apply connectForUser_advance.
Qed.

Lemma unregister_advance b σ :
  closures_advance σ (unregister appMap toLowerCase b σ).2.1.
Proof.
  unfold unregister.
  destruct (b_instance_url b); [|apply closures_advance_refl].
  destruct (checkAppId _ _ _); [apply closures_advance_refl|].
  destruct (db_up σ); [|apply closures_advance_refl].
  destruct (Registration_findOne _ _); [|apply closures_advance_refl].
  apply closures_advance_same, disconnectForUser_frame.
Qed.

Lemma step_advance ev σ σ' e : step ev σ = Some (σ', e) → closures_advance σ σ'.
Proof.
  destruct ev; simpl; intros H.
  - destruct (sockets σ !! ws) as [w|]; [|discriminate]; simpl in H.
    destruct (bool_decide _); [|discriminate].
    injection H as H. apply (f_equal fst) in H; simpl in H. subst σ'.
    eapply closures_advance_trans; [|apply onOpen_advance].
    apply closures_advance_same. reflexivity.
  - destruct (sockets σ !! ws) as [w|]; [|discriminate]; simpl in H.
    destruct (closures σ !! s_owner w); [|discriminate]; simpl in H.
    destruct (bool_decide _); [|discriminate].
    destruct (onMessage _ _); [|discriminate].
    injection H as <- _. apply closures_advance_refl.
  - destruct (sockets σ !! ws) as [w|]; [|discriminate]; simpl in H.
    destruct (bool_decide _); [discriminate|].
    injection H as <- _. apply closures_advance_same. reflexivity.
  - destruct (sockets σ !! ws) as [w|]; [|discriminate]; simpl in H.
    destruct (bool_decide _); [discriminate|].
    injection H as H. apply (f_equal fst) in H; simpl in H. subst σ'.
    apply closures_advance_same. rewrite onClose_closures. reflexivity.
  - destruct (timeouts σ !! k) as [t|]; [|discriminate]; simpl in H.
    injection H as H. apply (f_equal fst) in H; simpl in H. subst σ'.
    apply closures_advance_same. rewrite reconnect_closures. reflexivity.
  - destruct (intervals σ !! h) as [iv|]; [|discriminate]; simpl in H.
    destruct (i_active iv); [|discriminate].
    injection H as H. apply (f_equal fst) in H; simpl in H. subst σ'.
    apply heartbeat_tick_advance.
  - destruct (queries σ !! k) as [q|]; [|discriminate]; simpl in H.
    destruct (closures σ !! q_closure q); [|discriminate]; simpl in H.
    destruct (db_up σ).
    + injection H as H. apply (f_equal fst) in H; simpl in H. subst σ'.
      apply closures_advance_same. rewrite onFound_closures. reflexivity.
    + injection H as <- _. apply closures_advance_same. reflexivity.
  - injection H as <- _. apply closures_advance_same. reflexivity.
  - injection H as H. apply (f_equal fst) in H; simpl in H. subst σ'.
    apply restore_advance.
  - injection H as H. apply (f_equal fst) in H; simpl in H. subst σ'.
    apply register_advance.
  - injection H as H. apply (f_equal fst) in H; simpl in H. subst σ'.
    apply unregister_advance.
Qed.

Lemma exec_advance evs σ σ' e : exec evs σ = Some (σ', e) → closures_advance σ σ'.
Proof.
  revert σ σ' e. induction evs as [|ev evs IH]; intros σ σ' e; simpl.
  - intros [= <- _]. apply closures_advance_refl.
  - destruct (step ev σ) as [[σ1 e1]|] eqn:E1; [|discriminate]; simpl.
    destruct (exec evs σ1) as [[σ2 e2]|] eqn:E2; [|discriminate]; simpl.
    intros [= <- _].
    eapply closures_advance_trans; [eapply step_advance, E1|eapply IH, E2].
Qed.

(** ** Well-formed tokens along an execution

    [connectForUser] does not look at the token; [/register], the only
    writer of the table, does.  So a table without malformed tokens stays
    so, and every socket is constructed for a well-formed token. *)

Local Abbreviation tokens_wellformed := (tokens_wellformed instanceMap).
Local Abbreviation socket_of_closure := (socket_of_closure instanceMap).

Lemma socket_of_closure_advance σ σ' w :
  closures_advance σ σ' → socket_of_closure σ w → socket_of_closure σ' w.
Proof.
  intros Hadv (cl & H & Hwf & Hurl).
  destruct (Hadv _ _ H) as (cl' & H' & Hr & _).
  exists cl'. rewrite Hr. auto.
Qed.

Lemma tokens_wellformed_advance σ σ' :
  closures_advance σ σ' → table σ' = table σ → sockets σ' = sockets σ →
  Forall (fun cl => wellformed (c_registration cl)) (closures σ') →
  tokens_wellformed σ → tokens_wellformed σ'.
Proof.
  intros Hadv Ht Hs Hc (A & _ & C). unfold tokens_wellformed.
  rewrite Ht, Hs. split; [exact A|]. split; [exact Hc|].
  eapply Forall_impl; [exact C|].
  intros w. apply socket_of_closure_advance, Hadv.
Qed.

Lemma tokens_wellformed_frame σ σ' :
  table σ' = table σ → closures σ' = closures σ → sockets σ' = sockets σ →
  tokens_wellformed σ → tokens_wellformed σ'.
Proof.
  intros Ht Hc Hs H.
  apply (tokens_wellformed_advance σ σ'); auto using closures_advance_same.
  rewrite Hc. apply H.
Qed.

Lemma tokens_wellformed_sockets_alter (f : Socket → Socket) i σ :
  (∀ w, s_url (f w) = s_url w ∧ s_owner (f w) = s_owner w) →
  tokens_wellformed σ → tokens_wellformed (set_sockets (alter f i) σ).
Proof.
  intros Hf (A & B & C). split; [exact A|]. split; [exact B|]. simpl.
  apply Forall_alter; [exact C|].
  intros w _ (cl & H & Hwf & Hurl). exists cl.
  destruct (Hf w) as [-> ->]. auto.
Qed.

Lemma tokens_wellformed_destroy registration σ :
  tokens_wellformed σ → tokens_wellformed (Registration_destroy registration σ).
Proof.
  intros (A & B & C). unfold Registration_destroy.
  destruct (db_up σ); [|split; auto].
  split; [|split; [exact B|exact C]]. simpl.
  apply Forall_forall. intros r Hr. apply list_elem_of_filter in Hr as [_ Hr].
  revert r Hr. apply Forall_forall, A.
Qed.

Lemma tokens_wellformed_disconnect registration σ :
  tokens_wellformed σ → tokens_wellformed (disconnectForUser registration σ).1.
Proof.
  intros H. unfold disconnectForUser.
  destruct (wsStorage σ !! ws_key registration) as [ws|]; simpl;
    apply tokens_wellformed_destroy; [|exact H].
  eapply tokens_wellformed_frame; [reflexivity..|].
  apply tokens_wellformed_sockets_alter; [|exact H]. intros w. simpl. auto.
Qed.

Lemma tokens_wellformed_close c σ :
  tokens_wellformed σ → tokens_wellformed (close c σ).1.
Proof.
  intros H. unfold close. destruct (closures σ !! c) as [cl|]; [|exact H].
  apply tokens_wellformed_disconnect.
  destruct (clearInterval_frame (heartbeat cl) σ) as (_ & Hs & Hc & _ & _ & Ht & _).
  eapply tokens_wellformed_frame; eauto.
Qed.

Lemma tokens_wellformed_reconnect c σ :
  tokens_wellformed σ → tokens_wellformed (reconnect c σ).1.
Proof.
  intros H. unfold reconnect. destruct (closures σ !! c) as [cl|] eqn:E; [|exact H].
  destruct (clearInterval_frame (heartbeat cl) σ) as (_ & Hs & Hc & _ & _ & Ht & _).
  destruct H as (A & B & C).
  split; [simpl; rewrite Ht; exact A|]. split; [simpl; rewrite Hc; exact B|].
  simpl. apply Forall_app. split.
  - rewrite Hs. eapply Forall_impl; [exact C|].
    intros w (cl' & H' & Hwf & Hurl). exists cl'. simpl. rewrite Hc. auto.
  - apply Forall_singleton. exists cl. simpl. rewrite Hc.
    split; [exact E|]. split; [|reflexivity].
    eapply (Forall_lookup_1 _ _ _ _ B E).
Qed.

Lemma tokens_wellformed_onOpen c ws σ :
  tokens_wellformed σ → tokens_wellformed (onOpen c ws σ).1.
Proof.
  intros H. apply (tokens_wellformed_advance σ); auto using onOpen_advance.
  - unfold onOpen. destruct (readyState <$> sockets σ !! ws) as [[| | |]|]; reflexivity.
  - unfold onOpen. destruct (readyState <$> sockets σ !! ws) as [[| | |]|]; reflexivity.
  - unfold onOpen.
    destruct (readyState <$> sockets σ !! ws) as [[| | |]|]; try apply H.
    simpl. apply Forall_alter; [apply H|]. auto.
Qed.

Lemma tokens_wellformed_heartbeat_tick c ws now σ :
  tokens_wellformed σ → tokens_wellformed (heartbeat_tick c ws now σ).1.
Proof.
  intros H. apply (tokens_wellformed_advance σ); auto using heartbeat_tick_advance.
  - unfold heartbeat_tick. destruct (closures σ !! c); [|reflexivity].
    destruct (_ >=? _)%Z; reflexivity.
  - unfold heartbeat_tick. destruct (closures σ !! c); [|reflexivity].
    destruct (_ >=? _)%Z; reflexivity.
  - unfold heartbeat_tick. destruct (closures σ !! c); [|apply H].
    destruct (_ >=? _)%Z; [|apply H].
    simpl. apply Forall_alter; [apply H|]. auto.
Qed.

Lemma tokens_wellformed_onFound c now r σ :
  tokens_wellformed σ → tokens_wellformed (onFound c now r σ).1.
Proof.
  intros H. unfold onFound. destruct r as [row|]; [|apply tokens_wellformed_close, H].
  destruct (_ >=? _)%Z; [apply tokens_wellformed_close, H|exact H].
Qed.

Lemma tokens_wellformed_connectForUser registration σ :
  wellformed registration →
  tokens_wellformed σ → tokens_wellformed (connectForUser registration σ).2.1.
Proof.
  intros Hwf H. unfold connectForUser.
  destruct (wsStorage σ !! ws_key registration); [exact H|].
  set (σ0 := set_closures _ σ).
  assert (tokens_wellformed σ0) as H0.
  { apply (tokens_wellformed_advance σ); try reflexivity; [| |exact H].
    - intros c cl Hc. exists cl. split; [|split; [reflexivity|lia]].
      subst σ0; simpl. rewrite lookup_app_l; [exact Hc|].
      eapply lookup_lt_Some, Hc.
    - subst σ0; simpl. apply Forall_app. split; [apply H|].
      apply Forall_singleton. exact Hwf. }
  destruct (truthy (checkAppId _ _ _)); simpl; [apply tokens_wellformed_close, H0|].
  destruct (truthy (checkInstanceUrl _ _)); simpl; [apply tokens_wellformed_close, H0|].
  apply tokens_wellformed_reconnect, H0.
Qed.

Lemma tokens_wellformed_restore_rows rows σ e :
  Forall wellformed rows → tokens_wellformed σ →
  tokens_wellformed (foldl (fun acc registration =>
             let '(_, (σ', e)) := connectForUser registration acc.1 in
             (σ', acc.2 ++ e)) (σ, e) rows).1.
Proof.
  revert σ e. induction rows as [|r rows IH]; intros σ e Hrows H; simpl; [exact H|].
  apply Forall_cons in Hrows as [Hr Hrows].
  pose proof (tokens_wellformed_connectForUser r σ Hr H) as H1.
  destruct (connectForUser r σ) as [ret [σ' e']]; simpl in *.
  apply IH; assumption.
Qed.

Lemma tokens_wellformed_upsert now i token a sec cb t σ :
  ¬ malformed_token (Some token) → tokens_wellformed σ →
  wellformed (upsert now i token a sec cb t σ).1
  ∧ tokens_wellformed (upsert now i token a sec cb t σ).2.
Proof.
  intros Htok (A & B & C). unfold upsert.
  destruct (Registration_findOne (table σ) (i, a, t)) as [m|]; simpl.
  - split; [exact Htok|]. split; [|split; [exact B|exact C]]. simpl.
    apply Forall_fmap. eapply Forall_impl; [exact A|].
    intros r Hr. simpl. destruct (bool_decide (r_id r = r_id m)); [exact Htok|exact Hr].
  - split; [exact Htok|]. split; [|split; [exact B|exact C]]. simpl.
    apply Forall_app. split; [exact A|]. apply Forall_singleton. exact Htok.
Qed.

Lemma tokens_wellformed_register now b σ :
  tokens_wellformed σ → tokens_wellformed (register now b σ).2.1.
Proof.
  intros H. unfold register.
  destruct (b_instance_url b); [|exact H].
  destruct (checkInstanceUrl _ _); [exact H|].
  destruct (checkAccessToken (b_access_token b)) eqn:Et; [exact H|].
  destruct (checkAppId _ _ _); [exact H|].
  destruct (db_up σ); [|exact H].
  assert (¬ malformed_token (Some (default "" (b_access_token b)))) as Htok.
  { revert Et. destruct (b_access_token b) as [tok|]; intros Et; [|discriminate Et].
    intros Hbad. change (malformed_token (Some tok)) in Hbad.
    apply checkAccessToken_rejects_malformed in Hbad. congruence. }
  match goal with |- context [upsert ?n ?i ?k ?a ?s ?c ?t σ] =>
    destruct (tokens_wellformed_upsert n i k a s c t σ Htok H) as [Hm Hu];
    destruct (upsert n i k a s c t σ) as [model σ1] end.
  simpl in *. apply tokens_wellformed_connectForUser; assumption.
Qed.

Lemma tokens_wellformed_unregister b σ :
  tokens_wellformed σ → tokens_wellformed (unregister appMap toLowerCase b σ).2.1.
Proof.
  intros H. unfold unregister.
  destruct (b_instance_url b); [|exact H].
  destruct (checkAppId _ _ _); [exact H|].
  destruct (db_up σ); [|exact H].
  destruct (Registration_findOne _ _); [|exact H].
  apply tokens_wellformed_disconnect, H.
Qed.

Lemma tokens_wellformed_step ev σ σ' e :
  step ev σ = Some (σ', e) → tokens_wellformed σ → tokens_wellformed σ'.
Proof.
  intros Hstep H. destruct ev; simpl in Hstep.
  - destruct (sockets σ !! ws) as [w|]; [|discriminate]; simpl in Hstep.
    destruct (bool_decide _); [|discriminate].
    injection Hstep as Hstep. apply (f_equal fst) in Hstep; simpl in Hstep. subst σ'.
    apply tokens_wellformed_onOpen, tokens_wellformed_sockets_alter; [|exact H].
    intros ?; simpl; auto.
  - destruct (sockets σ !! ws) as [w|]; [|discriminate]; simpl in Hstep.
    destruct (closures σ !! s_owner w); [|discriminate]; simpl in Hstep.
    destruct (bool_decide _); [|discriminate].
    destruct (onMessage _ _); [|discriminate].
    injection Hstep as <- _. exact H.
  - destruct (sockets σ !! ws) as [w|]; [|discriminate]; simpl in Hstep.
    destruct (bool_decide _); [discriminate|].
    injection Hstep as <- _. eapply tokens_wellformed_frame; [reflexivity..|exact H].
  - destruct (sockets σ !! ws) as [w|]; [|discriminate]; simpl in Hstep.
    destruct (bool_decide _); [discriminate|].
    injection Hstep as Hstep. apply (f_equal fst) in Hstep; simpl in Hstep. subst σ'.
    assert (tokens_wellformed (set_readyState ws CLOSED σ)) as H1.
    { apply tokens_wellformed_sockets_alter; [|exact H]. intros ?; simpl; auto. }
    unfold onClose. destruct (bool_decide (code = 1000%Z)).
    + apply tokens_wellformed_close, H1.
    + eapply tokens_wellformed_frame; [reflexivity..|exact H1].
  - destruct (timeouts σ !! k) as [t|]; [|discriminate]; simpl in Hstep.
    injection Hstep as Hstep. apply (f_equal fst) in Hstep; simpl in Hstep. subst σ'.
    apply tokens_wellformed_reconnect.
    eapply tokens_wellformed_frame; [reflexivity..|exact H].
  - destruct (intervals σ !! h) as [iv|]; [|discriminate]; simpl in Hstep.
    destruct (i_active iv); [|discriminate].
    injection Hstep as Hstep. apply (f_equal fst) in Hstep; simpl in Hstep. subst σ'.
    apply tokens_wellformed_heartbeat_tick, H.
  - destruct (queries σ !! k) as [q|]; [|discriminate]; simpl in Hstep.
    destruct (closures σ !! q_closure q); [|discriminate]; simpl in Hstep.
    assert (tokens_wellformed (set_queries (delete k) σ)) as H1.
    { eapply tokens_wellformed_frame; [reflexivity..|exact H]. }
    destruct (db_up σ).
    + injection Hstep as Hstep. apply (f_equal fst) in Hstep; simpl in Hstep. subst σ'.
      apply tokens_wellformed_onFound, H1.
    + injection Hstep as <- _. exact H1.
  - injection Hstep as <- _. eapply tokens_wellformed_frame; [reflexivity..|exact H].
  - injection Hstep as Hstep. apply (f_equal fst) in Hstep; simpl in Hstep. subst σ'.
    unfold restore. destruct (db_up σ); [|exact H].
    apply tokens_wellformed_restore_rows; [apply H|exact H].
  - injection Hstep as Hstep. apply (f_equal fst) in Hstep; simpl in Hstep. subst σ'.
    apply tokens_wellformed_register, H.
  - injection Hstep as Hstep. apply (f_equal fst) in Hstep; simpl in Hstep. subst σ'.
    apply tokens_wellformed_unregister, H.
Qed.

Lemma tokens_wellformed_exec evs σ σ' e :
  exec evs σ = Some (σ', e) → tokens_wellformed σ → tokens_wellformed σ'.
Proof.
  revert σ σ' e. induction evs as [|ev evs IH]; intros σ σ' e; simpl.
  - intros [= <- _]. auto.
  - destruct (step ev σ) as [[σ1 e1]|] eqn:E1; [|discriminate]; simpl.
    destruct (exec evs σ1) as [[σ2 e2]|] eqn:E2; [|discriminate]; simpl.
    intros [= <- _] H. eapply IH, tokens_wellformed_step; eauto.
Qed.

(** C2, as the code has it.  The token is validated by the [/register]
    route, not by [connectForUser]: a request whose [access_token] is
    missing, empty or contains one of [? & = /] is answered without the
    store being written and without [connectForUser] being called, so that
    the state, and with it the list of sockets, is unchanged and no
    outbound call is made; when the instance URL is accepted the answer is
    status 400 with the validator's message.  Hence, when the process
    starts on a table without malformed tokens, every socket it ever
    constructs is for a registration whose token is well-formed. *)
Theorem register_rejects_malformed_token :
  (∀ (now : Z) b σ,
     malformed_token (b_access_token b) →
     (register now b σ).2 = (σ, [])
     ∧ (register now b σ).1 ≠ Status 202 None
     ∧ (∀ u, b_instance_url b = Some u →
             checkInstanceUrl instanceMap (Some (toLowerCase u)) = None →
             (register now b σ).1 = Status 400 (checkAccessToken (b_access_token b))))
  ∧ (∀ rows n evs σ e,
       Forall wellformed rows →
       exec evs (boot rows n) = Some (σ, e) →
       ∀ w, w ∈ sockets σ →
         ∃ cl, closures σ !! s_owner w = Some cl
               ∧ wellformed (c_registration cl)
               ∧ s_url w = streaming_url
                             (getReplaceUrl instanceMap (instanceUrl (c_registration cl)))
                             (accessToken (c_registration cl))).
Proof.
  split.
  - intros now b σ Hbad. apply checkAccessToken_rejects_malformed in Hbad.
    unfold register.
    destruct (b_instance_url b) as [u|]; simpl.
    + destruct (checkInstanceUrl instanceMap (Some (toLowerCase u))) as [err|] eqn:Ei; simpl.
      * split; [reflexivity|]. split; [discriminate|].
        intros ? [= <-]. rewrite Ei. discriminate.
      * destruct (checkAccessToken (b_access_token b)) as [err|] eqn:Et; [|congruence].
        simpl. split; [reflexivity|]. split; [discriminate|]. reflexivity.
    + split; [reflexivity|]. split; [discriminate|]. intros ? [=].
  - intros rows n evs σ e Hrows Hexec.
    assert (tokens_wellformed (boot rows n)) as H0.
    { split; [exact Hrows|]. split; constructor. }
    destruct (tokens_wellformed_exec _ _ _ _ Hexec H0) as (_ & _ & Hs).
    apply Forall_forall, Hs.
Qed.

(** ** Frequency of the expiry check *)

Lemma connectForUser_closures registration σ :
  wsStorage σ !! ws_key registration = None →
  closures (connectForUser registration σ).2.1 =
  closures σ ++ [mkClosure registration None 0].
Proof.
  intros H. unfold connectForUser. rewrite H.
  destruct (truthy (checkAppId _ _ _)); simpl; [apply close_closures|].
  destruct (truthy (checkInstanceUrl _ _)); simpl; [apply close_closures|].
  apply reconnect_closures.
Qed.

(** C8, as the code has it.  [last_check] is 0 when [connectForUser]
    creates the session and the ['open'] handler does not change it.  A
    heartbeat tick at time [now] re-reads the registration exactly when
    [now - last_check] is at least 86400000 ms, and then sets [last_check]
    to [now].  Hence whatever happens in between, two reads by one session
    are at least 24 hours apart; the first tick after the socket opened
    does read. *)
Theorem store_reads_are_a_day_apart :
  (∀ registration σ,
     wsStorage σ !! ws_key registration = None →
     closures (connectForUser registration σ).2.1 =
     closures σ ++ [mkClosure registration None 0])
  ∧ (∀ c ws σ cl,
       closures σ !! c = Some cl →
       ∃ cl', closures (onOpen c ws σ).1 !! c = Some cl'
              ∧ last_check cl' = last_check cl)
  ∧ (∀ c ws (now : Z) σ cl,
       closures σ !! c = Some cl →
       (heartbeat_tick c ws now σ).2 =
       if (86400000 <=? now - last_check cl)%Z
       then [WsPing ws; DbFindOne (reg_key (c_registration cl))]
       else [WsPing ws])
  ∧ (∀ c ws (now : Z) σ cl,
       closures σ !! c = Some cl →
       (86400000 ≤ now - last_check cl)%Z →
       closures (heartbeat_tick c ws now σ).1 !! c =
       Some (mkClosure (c_registration cl) (heartbeat cl) now))
  ∧ (∀ c ws1 ws2 (now1 now2 : Z) σ cl evs σ2 e key,
       closures σ !! c = Some cl →
       (86400000 ≤ now1 - last_check cl)%Z →
       exec evs (heartbeat_tick c ws1 now1 σ).1 = Some (σ2, e) →
       DbFindOne key ∈ (heartbeat_tick c ws2 now2 σ2).2 →
       (86400000 ≤ now2 - now1)%Z).
Proof.
  split; [|split; [|split; [|split]]].
  - apply connectForUser_closures.
  - intros c ws σ cl H. unfold onOpen.
    destruct (readyState <$> sockets σ !! ws) as [[| | |]|]; simpl; eauto.
    rewrite list_lookup_alter_eq, H. simpl. eauto.
  - apply heartbeat_tick_effects.
  - apply heartbeat_tick_last_check.
  - intros c ws1 ws2 now1 now2 σ cl evs σ2 e key Hcl Hge Hexec Hread.
    pose proof (heartbeat_tick_last_check c ws1 now1 σ cl Hcl Hge) as H1.
    destruct (exec_advance _ _ _ _ Hexec _ _ H1) as (cl2 & H2 & _ & Hle).
    simpl in Hle.
    rewrite (heartbeat_tick_effects c ws2 now2 σ2 cl2 H2) in Hread.
    destruct (Z.leb_spec 86400000 (now2 - last_check cl2)); [lia|].
    apply list_elem_of_singleton in Hread. discriminate.
Qed.

End Properties.

(** * The properties on the concrete deployment *)

Section Scenarios.

Local Abbreviation connectForUser := (connectForUser Example.appMap Example.instanceMap).
Local Abbreviation step := (step Example.appMap Example.instanceMap Example.toLowerCase).
Local Abbreviation exec := (exec Example.appMap Example.instanceMap Example.toLowerCase).
Local Abbreviation register := (register Example.appMap Example.instanceMap Example.toLowerCase).

(** The states of [Example] are the ones the process goes through. *)
Lemma connecting_is_reached : step Start Example.booted =
  Some (Example.connecting, [WsConnect 0 Example.url]).
Proof. vm_compute. reflexivity. Qed.

Lemma opened_is_reached : step (SocketOpen 0) Example.connecting = Some (Example.opened, []).
Proof. vm_compute. reflexivity. Qed.

(** The scenarios of the specification.  Registering on an empty table
    connects; the notification frame is then posted to the callback. *)
Lemma scenario_register_and_deliver :
  snd <$> exec [PostRegister Example.t0 Example.body; SocketOpen 0;
                SocketMessage 0 (Some Example.frame)] (boot [] 1) =
  Some [WsConnect 0 Example.url;
        HttpPost "https://client/cb"
          (Json.Object [("instanceUrl", Json.Str "https://example.social");
                        ("tag", Json.Str "t1");
                        ("appId", Json.Str "app1");
                        ("payload", Json.Object [("id", Json.Number 42)])])
          [("Content-Type", "application/json")]].
Proof. vm_compute. reflexivity. Qed.

(** Unregistering closes the socket and leaves neither session nor row; a
    later registration starts afresh. *)
Lemma scenario_unregister :
  (fun r => (wsStorage r.1 !! Example.key, readyState <$> sockets r.1, table r.1, r.2))
    <$> exec [PostUnregister Example.body] Example.opened =
  Some (None, [CLOSING], [], [WsClose 0; DbDestroy 1])
  ∧ snd <$> exec [PostUnregister Example.body; PostRegister Example.t0 Example.body]
                 Example.opened =
    Some [WsClose 0; DbDestroy 1; WsConnect 1 Example.url].
Proof. split; vm_compute; reflexivity. Qed.

(** ** Colliding registry keys *)

(** C10.  The registry key is not injective on registration keys:
    [Example.first] and [Example.second] differ in [instanceUrl] and [tag]
    and have the same [ws_key].  Once the first is connected,
    [connectForUser] on the second returns [true] ("Already registered")
    and constructs no socket for it. *)
Theorem ws_key_collision :
  reg_key Example.first ≠ reg_key Example.second
  ∧ ws_key Example.first = ws_key Example.second
  ∧ ∃ σ1 e1,
      connectForUser Example.first (boot [Example.first; Example.second] 3)
        = (ReturnedUndefined, (σ1, e1))
      ∧ length (sockets σ1) = 1
      ∧ connectForUser Example.second σ1 = (ReturnedTrue, (σ1, [])).
Proof.
  split; [discriminate|]. split; [reflexivity|].
  eexists _, _. split; [vm_compute; reflexivity|].
  split; vm_compute; reflexivity.
Qed.

(** ** Two sockets for one key *)

(** C5.  A socket that fails emits ['error'] and then ['close'] (code
    1006); [onError] and [onClose] each schedule a [reconnect], each
    [reconnect] constructs a socket, and the second overwrites the first in
    [wsStorage] without closing it.  After both handshakes two sockets of
    the same key are open, and both carry [onMessage]. *)
Theorem error_then_close_opens_two_sockets :
  ∃ σ e,
    exec [Start; SocketError 0; SocketClose 0 1006;
          TimeoutFires 0; TimeoutFires 0; SocketOpen 1; SocketOpen 2]
         Example.booted = Some (σ, e)
    ∧ live_sockets Example.key σ =
        [mkSocket Example.url 0 OPEN; mkSocket Example.url 0 OPEN]
    ∧ sockets σ !! 1 = Some (mkSocket Example.url 0 OPEN)
    ∧ sockets σ !! 2 = Some (mkSocket Example.url 0 OPEN)
    ∧ wsStorage σ !! Example.key = Some 2.
Proof.
  eexists _, _. split; [vm_compute; reflexivity|].
  repeat split; vm_compute; reflexivity.
Qed.

(** ** Where the code departs from the specification *)

(** C2 does not hold of [connectForUser]: at process start a stored row
    whose token contains [/] is connected, token and all. *)
Lemma restore_connects_malformed_token :
  ¬ (∀ appMap instanceMap rows n,
       (∀ r, r ∈ rows → malformed_token (Some (accessToken r))) →
       sockets (restore appMap instanceMap (boot rows n)).1 = []).
Proof.
  intros H.
  specialize (H Example.appMap Example.instanceMap [Example.bad_token] 2).
  assert (∀ r, r ∈ [Example.bad_token] → malformed_token (Some (accessToken r))) as Hbad.
  { intros r Hr. apply list_elem_of_singleton in Hr. subst r.
    simpl. tauto. }
  specialize (H Hbad). vm_compute in H. discriminate.
Qed.

(** C7 does not hold when no session is present: the registration is
    destroyed all the same. *)
Lemma stop_without_session_destroys :
  ¬ (∀ registration σ,
       wsStorage σ !! ws_key registration = None →
       table (disconnectForUser registration σ).1 = table σ).
Proof.
  intros H. specialize (H Example.registration Example.booted eq_refl).
  vm_compute in H. discriminate.
Qed.

(** C8 does not hold: the tick ten seconds after the socket opened reads
    the store, at whatever time the socket opened. *)
Lemma first_tick_reads_the_store :
  ¬ (∀ opened_at now : Z,
       (0 ≤ now - opened_at < 86400000)%Z →
       ∀ σ e, step (IntervalFires 0 now) Example.opened = Some (σ, e) →
              ∀ key, DbFindOne key ∉ e).
Proof.
  intros H.
  eapply (H Example.t0 (Example.t0 + 10000)%Z).
  - unfold Example.t0. lia.
  - vm_compute. reflexivity.
  - repeat constructor.
Qed.

(** C9 does not hold: with the store down, [destroy] fails and the row
    stays, yet the session is gone from the registry. *)
Lemma failed_destroy_still_removes :
  ¬ (∀ registration σ,
       db_up σ = false →
       wsStorage (disconnectForUser registration σ).1 !! ws_key registration
       = wsStorage σ !! ws_key registration).
Proof.
  intros H.
  specialize (H Example.registration (set_db_up false Example.opened) eq_refl).
  vm_compute in H. discriminate.
Qed.

(** ** The general properties, at the concrete deployment *)

(** The scenario of the specification: the frame
    [{"event":"notification","payload":{"id":42}}] is posted to
    [https://client/cb]; an [update] frame is dropped. *)
Lemma notification_frames_are_posted_once_witness :
  step (SocketMessage 0 (Some Example.frame)) Example.opened =
  Some (Example.opened,
        [HttpPost "https://client/cb"
           (Json.Object [("instanceUrl", Json.Str "https://example.social");
                         ("tag", Json.Str "t1");
                         ("appId", Json.Str "app1");
                         ("payload", Json.Object [("id", Json.Number 42)])])
           [("Content-Type", "application/json")]])
  ∧ step (SocketMessage 0
            (Some (Json.Object [("event", Json.Str "update");
                                ("payload", Json.Str "{}")])))
         Example.opened = Some (Example.opened, []).
Proof.
  pose proof (notification_frames_are_posted_once
                Example.appMap Example.instanceMap Example.toLowerCase
                Example.opened 0 (mkSocket Example.url 0 OPEN)
                (mkClosure Example.registration (Some 0) 0)
                eq_refl eq_refl eq_refl) as (Hpost & _ & Hdrop).
  split.
  - exact (Hpost [("event", Json.Str "notification");
                  ("payload", Json.Object [("id", Json.Number 42)])]
                 (Json.Object [("id", Json.Number 42)]) eq_refl eq_refl).
  - refine (Hdrop (Json.Object [("event", Json.Str "update");
                                ("payload", Json.Str "{}")])
                  (Some (Json.Str "update")) eq_refl _).
    discriminate.
Defined.

Lemma connectForUser_already_registered_witness :
  connectForUser Example.registration Example.opened =
  (ReturnedTrue, (Example.opened, [])).
Proof.
  exact (connectForUser_already_registered Example.appMap Example.instanceMap
           Example.registration Example.opened 0 eq_refl).
Defined.

Lemma register_rejects_malformed_token_witness :
  (register Example.t0
     (mkBody (Some "https://Example.social") (Some "abc/123") (Some "app1")
             (Some "s3cret") "https://client/cb" "t1")
     Example.booted).2 = (Example.booted, [])
  ∧ ∀ w, w ∈ sockets Example.opened →
      ∃ cl, closures Example.opened !! s_owner w = Some cl
            ∧ wellformed (c_registration cl)
            ∧ s_url w = streaming_url
                (getReplaceUrl Example.instanceMap (instanceUrl (c_registration cl)))
                (accessToken (c_registration cl)).
Proof.
  pose proof (register_rejects_malformed_token
                Example.appMap Example.instanceMap Example.toLowerCase)
    as [Hgate Hsockets].
  split.
  - refine (proj1 (Hgate Example.t0 _ Example.booted _)). simpl. tauto.
  - refine (Hsockets [Example.registration] 2 [Start; SocketOpen 0]
              Example.opened [WsConnect 0 Example.url] _ _).
    + apply Forall_singleton. unfold wellformed. simpl.
      intros H. repeat destruct H as [H|H]; try discriminate H; exact H.
    + vm_compute. reflexivity.
Defined.

Lemma disconnectForUser_closes_removes_destroys_witness :
  (disconnectForUser Example.registration Example.opened).2 = [WsClose 0; DbDestroy 1].
Proof.
  exact (proj1 (proj1 (disconnectForUser_closes_removes_destroys
                         Example.registration Example.opened) 0 eq_refl)).
Defined.

Lemma disconnectForUser_removes_whatever_destroy_does_witness :
  table (disconnectForUser Example.registration (set_db_up false Example.opened)).1
  = [Example.registration].
Proof.
  exact (proj2 (disconnectForUser_removes_whatever_destroy_does
                  Example.registration (set_db_up false Example.opened)) eq_refl).
Defined.

(** After a read at [t0], a tick twelve hours later only pings; a tick
    that reads after further events is at least a day later. *)
Lemma store_reads_are_a_day_apart_witness :
  (heartbeat_tick 0 0 (Example.t0 + 43200000)
     (heartbeat_tick 0 0 Example.t0 Example.opened).1).2 = [WsPing 0]
  ∧ (86400000 ≤ (Example.t0 + 90000000) - Example.t0)%Z.
Proof.
  pose proof (store_reads_are_a_day_apart
                Example.appMap Example.instanceMap Example.toLowerCase)
    as (_ & _ & Htick & _ & Hapart).
  split.
  - refine (Htick 0 0 (Example.t0 + 43200000)%Z
              (heartbeat_tick 0 0 Example.t0 Example.opened).1
              (mkClosure Example.registration (Some 0) Example.t0) _).
    vm_compute. reflexivity.
  - eapply (Hapart 0 0 0 Example.t0 (Example.t0 + 90000000)%Z Example.opened
              (mkClosure Example.registration (Some 0) 0)
              [SocketMessage 0 (Some Example.frame)]).
    + reflexivity.
    + vm_compute. discriminate.
    + vm_compute. reflexivity.
    + vm_compute. repeat constructor.
Defined.

End Scenarios.

(** * Further properties of the handlers *)

(** ** Frames that are not envelopes *)

(** X1.  [onMessage] throws exactly on a frame that is not JSON text
    ([JSON.parse] throws) and on the frame [null] (reading [.event] of
    [null] throws); every other frame, whatever its shape, is handled
    without an exception. *)
Theorem onMessage_throws_iff registration data :
  (∃ err, onMessage registration data = Json.Throws err)
  ↔ data = None ∨ data = Some Json.Null.
Proof.
  split.
  - intros [err H]. destruct data as [json|]; [|auto].
    destruct json; simpl in H; try discriminate H; auto.
    unfold onMessage in H; simpl in H.
    destruct (negb (Json.strict_eq_string (Json.assoc "event" fields) "notification"));
      discriminate H.
  - intros [->| ->]; simpl; eauto.
Qed.

(** X2.  A notification envelope that carries no [payload] is posted all
    the same; [JSON.stringify] leaves the undefined [payload] out, so the
    body has the three fields of the registration only. *)
Theorem notification_without_payload registration fields :
  Json.assoc "event" fields = Some (Json.Str "notification") →
  Json.assoc "payload" fields = None →
  onMessage registration (Some (Json.Object fields)) =
  Json.Done [HttpPost (callbackUrl registration)
               (Json.Object [("instanceUrl", Json.Str (instanceUrl registration));
                             ("tag", Json.Str (tag registration));
                             ("appId", Json.Str (appId registration))])
               [("Content-Type", "application/json")]].
Proof.
  intros Hev Hpl. unfold onMessage; simpl. rewrite Hev, Hpl. reflexivity.
Qed.

Lemma notification_without_payload_witness :
  onMessage Example.registration
    (Some (Json.Object [("event", Json.Str "notification")])) =
  Json.Done [HttpPost "https://client/cb"
               (Json.Object [("instanceUrl", Json.Str "https://example.social");
                             ("tag", Json.Str "t1");
                             ("appId", Json.Str "app1")])
               [("Content-Type", "application/json")]].
Proof.
  exact (notification_without_payload Example.registration
           [("event", Json.Str "notification")] eq_refl eq_refl).
Defined.

(** ** Stopping twice *)

Lemma filter_filter_same {A} (P : A → Prop) `{∀ x, Decision (P x)} (l : list A) :
  filter P (filter P l) = filter P l.
Proof.
  induction l as [|x l IH]; [reflexivity|].
  rewrite (filter_cons P x l). destruct (decide (P x)) as [Hx|Hx]; [|exact IH].
  rewrite (filter_cons P x (filter P l)). destruct (decide (P x)); [|tauto].
  f_equal. exact IH.
Qed.

Lemma set_table_fixed f σ : f (table σ) = table σ → set_table f σ = σ.
Proof. destruct σ; unfold set_table; simpl. intros ->. reflexivity. Qed.

(** X3.  [disconnectForUser] is idempotent on the state: called a second
    time it finds no socket under the key, closes nothing, and only calls
    [destroy] again, which changes nothing. *)
Theorem disconnectForUser_twice registration σ :
  disconnectForUser registration (disconnectForUser registration σ).1 =
  ((disconnectForUser registration σ).1, [DbDestroy (r_id registration)]).
Proof.
  set (σ1 := (disconnectForUser registration σ).1).
  assert (wsStorage σ1 !! ws_key registration = None) as Hnone.
  { subst σ1. rewrite disconnectForUser_wsStorage. apply lookup_delete_eq. }
  unfold disconnectForUser at 1. rewrite Hnone. simpl. f_equal.
  unfold Registration_destroy.
  destruct (db_up σ1) eqn:Hup; [|reflexivity].
  apply set_table_fixed. subst σ1.
  destruct (disconnectForUser_frame registration σ) as (_ & _ & _ & _ & Hdb).
  rewrite Hdb in Hup.
  rewrite disconnectForUser_table, Hup. apply filter_filter_same.
Qed.

(** ** Starting a session *)

Section Connecting.

Context (appMap : gmap string AppEntry) (instanceMap : gmap string InstanceEntry).

Local Abbreviation connectForUser := (connectForUser appMap instanceMap).
Local Abbreviation validates := (validates appMap instanceMap).
Local Abbreviation connect_url := (connect_url instanceMap).

(** An error message is never the empty string, so [if (error)] tests for
    an error. *)
Lemma truthy_checkAppId a s :
  truthy (checkAppId appMap a s) = true ↔ checkAppId appMap a s ≠ None.
Proof.
  unfold checkAppId. destruct (truthy a); simpl; [|split; [discriminate|reflexivity]].
  destruct (appMap !! default "" a) as [e|]; simpl.
  - destruct (bool_decide _); simpl; split; try discriminate; try reflexivity.
    intros H. congruence.
  - split; [discriminate|reflexivity].
Qed.

Lemma truthy_checkInstanceUrl u :
  truthy (checkInstanceUrl instanceMap u) = true ↔ checkInstanceUrl instanceMap u ≠ None.
Proof.
  unfold checkInstanceUrl. destruct (truthy u); simpl; [|split; [discriminate|reflexivity]].
  destruct (instanceMap !! default "" u); simpl; [split; [discriminate|congruence]|].
  destruct (instanceMap !! "*"); simpl; [split; [discriminate|congruence]|].
  split; [discriminate|reflexivity].
Qed.

Lemma not_validates_truthy registration :
  ¬ validates registration →
  truthy (checkAppId appMap (Some (appId registration)) (Some (appSecret registration))) = true
  ∨ (truthy (checkAppId appMap (Some (appId registration)) (Some (appSecret registration))) = false
     ∧ truthy (checkInstanceUrl instanceMap (Some (instanceUrl registration))) = true).
Proof.
  intros Hnot.
  destruct (truthy (checkAppId _ _ _)) eqn:Ea; [auto|]. right. split; [reflexivity|].
  destruct (truthy (checkInstanceUrl _ _)) eqn:Ei; [reflexivity|]. exfalso. apply Hnot.
  split.
  - destruct (checkAppId appMap (Some (appId registration)) (Some (appSecret registration)))
      eqn:E; [|reflexivity].
    assert (truthy (checkAppId appMap (Some (appId registration))
                      (Some (appSecret registration))) = true) as Ht
      by (apply truthy_checkAppId; congruence).
    rewrite E in Ht. congruence.
  - destruct (checkInstanceUrl instanceMap (Some (instanceUrl registration)))
      eqn:E; [|reflexivity].
    assert (truthy (checkInstanceUrl instanceMap (Some (instanceUrl registration))) = true)
      as Ht by (apply truthy_checkInstanceUrl; congruence).
    rewrite E in Ht. congruence.
Qed.

(** X4.  A registration that has no session and fails the app or the
    instance check is not connected: [connectForUser] returns [false],
    constructs no socket, leaves the registry as it is, and calls [destroy]
    on the registration, whose row is deleted when the store answers. *)
Theorem connectForUser_refuses_and_destroys registration σ :
  wsStorage σ !! ws_key registration = None →
  ¬ validates registration →
  (connectForUser registration σ).1 = ReturnedFalse
  ∧ (connectForUser registration σ).2.2 = [DbDestroy (r_id registration)]
  ∧ sockets (connectForUser registration σ).2.1 = sockets σ
  ∧ wsStorage (connectForUser registration σ).2.1 = wsStorage σ
  ∧ table (connectForUser registration σ).2.1 =
      (if db_up σ
       then filter (fun r => r_id r ≠ r_id registration) (table σ)
       else table σ).
Proof.
  intros Hnone Hnot.
  set (σ0 := set_closures (fun l => l ++ [mkClosure registration None 0]) σ).
  assert (connectForUser registration σ =
          (ReturnedFalse, disconnectForUser registration σ0)) as ->.
  { unfold connectForUser. rewrite Hnone. fold σ0.
    assert (close (length (closures σ)) σ0 = disconnectForUser registration σ0) as Hclose.
    { unfold close. subst σ0; simpl.
      rewrite lookup_app_r by lia. rewrite Nat.sub_diag. reflexivity. }
    destruct (not_validates_truthy registration Hnot) as [->|[-> ->]];
      rewrite Hclose; reflexivity. }
  simpl. split; [reflexivity|].
  rewrite disconnectForUser_effects, disconnectForUser_sockets,
    disconnectForUser_wsStorage, disconnectForUser_table.
  change (wsStorage σ0) with (wsStorage σ). rewrite Hnone.
  repeat split. apply delete_id, Hnone.
Qed.

(** X5.  A registration that has no session and passes both checks is
    connected: [connectForUser] returns [undefined], constructs exactly one
    socket, to the streaming URL of the instance with the registration's
    token, stores it under the registration's key, and leaves the table
    alone.  A second call then returns [true] and changes nothing. *)
Theorem connectForUser_connects_once registration σ :
  wsStorage σ !! ws_key registration = None →
  validates registration →
  let σ' := (connectForUser registration σ).2.1 in
  (connectForUser registration σ).1 = ReturnedUndefined
  ∧ (connectForUser registration σ).2.2 =
      [WsConnect (length (sockets σ)) (connect_url registration)]
  ∧ sockets σ' =
      sockets σ ++ [mkSocket (connect_url registration) (length (closures σ)) CONNECTING]
  ∧ wsStorage σ' = <[ws_key registration := length (sockets σ)]> (wsStorage σ)
  ∧ table σ' = table σ
  ∧ connectForUser registration σ' = (ReturnedTrue, (σ', [])).
Proof.
  intros Hnone [Ha Hi] σ'. subst σ'.
  set (σ0 := set_closures (fun l => l ++ [mkClosure registration None 0]) σ).
  assert (connectForUser registration σ =
          (ReturnedUndefined, reconnect instanceMap (length (closures σ)) σ0)) as E.
  { unfold connectForUser. rewrite Hnone, Ha, Hi. reflexivity. }
  assert (reconnect instanceMap (length (closures σ)) σ0 =
          (set_wsStorage <[ws_key registration := length (sockets σ)]>
             (set_sockets (fun l => l ++ [mkSocket (connect_url registration)
                                            (length (closures σ)) CONNECTING]) σ0),
           [WsConnect (length (sockets σ)) (connect_url registration)])) as Er.
  { unfold reconnect. subst σ0; simpl.
    rewrite lookup_app_r by lia. rewrite Nat.sub_diag. reflexivity. }
  rewrite E, Er. simpl. repeat split.
  unfold connectForUser. simpl. rewrite lookup_insert_eq. reflexivity.
Qed.

End Connecting.

(** ** The routes *)

Section Routes.

Context (appMap : gmap string AppEntry) (instanceMap : gmap string InstanceEntry)
        (toLowerCase : string → string).

Local Abbreviation connectForUser := (connectForUser appMap instanceMap).
Local Abbreviation validates := (validates appMap instanceMap).
Local Abbreviation accepted := (accepted appMap instanceMap toLowerCase).
Local Abbreviation connect_url := (connect_url instanceMap).
Local Abbreviation register := (register appMap instanceMap toLowerCase).
Local Abbreviation unregister := (unregister appMap toLowerCase).

(** What [connectForUser] does to a registration that validates. *)
Lemma connectForUser_valid registration σ :
  wsStorage σ !! ws_key registration = None →
  validates registration →
  connectForUser registration σ =
  (ReturnedUndefined,
   (set_wsStorage <[ws_key registration := length (sockets σ)]>
      (set_sockets (fun l => l ++ [mkSocket (connect_url registration)
                                     (length (closures σ)) CONNECTING])
         (set_closures (fun l => l ++ [mkClosure registration None 0]) σ)),
    [WsConnect (length (sockets σ)) (connect_url registration)])).
Proof.
  intros Hnone [Ha Hi]. unfold connectForUser. rewrite Hnone, Ha, Hi. simpl.
  unfold reconnect; simpl.
  rewrite lookup_app_r by lia. rewrite Nat.sub_diag. reflexivity.
Qed.

Lemma connectForUser_valid_table registration σ :
  validates registration → table (connectForUser registration σ).2.1 = table σ.
Proof.
  intros Hv. destruct (wsStorage σ !! ws_key registration) as [ws|] eqn:E.
  - unfold connectForUser. rewrite E. reflexivity.
  - rewrite (connectForUser_valid registration σ E Hv). reflexivity.
Qed.

Lemma connectForUser_valid_registered registration σ :
  validates registration →
  is_Some (wsStorage (connectForUser registration σ).2.1 !! ws_key registration).
Proof.
  intros Hv. destruct (wsStorage σ !! ws_key registration) as [ws|] eqn:E.
  - unfold connectForUser. rewrite E. simpl. rewrite E. eauto.
  - rewrite (connectForUser_valid registration σ E Hv). simpl.
    rewrite lookup_insert_eq. eauto.
Qed.

(** The fields of a request that the validators accept. *)
Lemma accepted_fields b u :
  accepted b u →
  ∃ token a sec,
    b_access_token b = Some token ∧ b_app_id b = Some a ∧ b_app_secret b = Some sec
    ∧ checkAppId appMap (Some a) (Some sec) = None.
Proof.
  intros (_ & _ & Ht & Ha).
  destruct (b_access_token b) as [token|]; [|discriminate Ht].
  destruct (b_app_id b) as [a|]; [|discriminate Ha].
  destruct (b_app_secret b) as [sec|].
  - exists token, a, sec. auto.
  - exfalso. unfold checkAppId in Ha.
    destruct (truthy (Some a)); [|discriminate Ha]. simpl in Ha.
    destruct (appMap !! a); discriminate Ha.
Qed.

(** X6.  [/register] answers 202 exactly when [instance_url] is present
    and the three validators accept the request; any other request leaves
    the state as it is and causes no outbound call. *)
Theorem register_accepts_iff (now : Z) b σ :
  ((register now b σ).1 = Status 202 None ↔ ∃ u, accepted b u)
  ∧ ((register now b σ).1 ≠ Status 202 None → (register now b σ).2 = (σ, [])).
Proof.
  unfold register, accepted.
  destruct (b_instance_url b) as [u|]; simpl.
  2:{ split; [|reflexivity]. split; [discriminate|]. intros (u & Hu & _). discriminate Hu. }
  destruct (checkInstanceUrl instanceMap (Some (toLowerCase u))) as [err|] eqn:Ei; simpl.
  { split; [|reflexivity]. split; [discriminate|].
    intros (u' & [= <-] & Hi & _). congruence. }
  destruct (checkAccessToken (b_access_token b)) as [err|] eqn:Et; simpl.
  { split; [|reflexivity]. split; [discriminate|].
    intros (u' & _ & _ & Ht & _). discriminate Ht. }
  destruct (checkAppId appMap (b_app_id b) (b_app_secret b)) as [err|] eqn:Ea; simpl.
  { split; [|reflexivity]. split; [discriminate|].
    intros (u' & _ & _ & _ & Ha). discriminate Ha. }
  assert ((if db_up σ
           then let '(model, σ1) :=
                  upsert now (toLowerCase u) (default "" (b_access_token b))
                    (default "" (b_app_id b)) (default "" (b_app_secret b))
                    (b_callback_url b) (b_tag b) σ in
                (Status 202 None, (connectForUser model σ1).2)
           else (Status 202 None, (σ, []))).1 = Status 202 None) as H202.
  { destruct (db_up σ); [|reflexivity]. destruct (upsert _ _ _ _ _ _ _ _). reflexivity. }
  split; [|intros Hne; exfalso; apply Hne, H202].
  split; [|intros _; exact H202].
  intros _. exists u. repeat split; assumption.
Qed.

(** [findOrCreate] followed by [update]: looking the key up afterwards
    yields the updated model. *)
Lemma find_replaced (key : string * string * string) (m m' : Registration)
    (rows : list Registration) :
  Registration_findOne rows key = Some m →
  reg_key m' = key →
  Registration_findOne
    ((fun r => if bool_decide (r_id r = r_id m) then m' else r) <$> rows) key = Some m'.
Proof.
  intros Hfind Hkey. unfold Registration_findOne in *.
  induction rows as [|r rows IH]; [discriminate Hfind|].
  simpl in *. destruct (bool_decide_reflect (r_id r = r_id m)) as [Hid|Hid].
  - rewrite bool_decide_eq_true_2 by exact Hkey. reflexivity.
  - destruct (bool_decide (reg_key r = key)).
    + injection Hfind as ->. contradiction.
    + apply IH, Hfind.
Qed.

Lemma find_appended (key : string * string * string) (m' : Registration)
    (rows : list Registration) :
  Registration_findOne rows key = None →
  reg_key m' = key →
  Registration_findOne (rows ++ [m']) key = Some m'.
Proof.
  intros Hfind Hkey. unfold Registration_findOne in *.
  induction rows as [|r rows IH]; simpl in *.
  - rewrite bool_decide_eq_true_2 by exact Hkey. reflexivity.
  - destruct (bool_decide (reg_key r = key)); [discriminate Hfind|]. apply IH, Hfind.
Qed.

Lemma upsert_findOne (now : Z) i token a sec cb t σ :
  Registration_findOne (table (upsert now i token a sec cb t σ).2) (i, a, t) =
  Some (upsert now i token a sec cb t σ).1
  ∧ ∃ id, (upsert now i token a sec cb t σ).1 = mkRegistration id now i token a sec cb t.
Proof.
  unfold upsert.
  destruct (Registration_findOne (table σ) (i, a, t)) as [m|] eqn:E; simpl.
  - split; [|eauto]. apply (find_replaced _ _ _ _ E). reflexivity.
  - split; [|eauto]. apply (find_appended _ _ _ E). reflexivity.
Qed.

Lemma upsert_frame (now : Z) i token a sec cb t σ :
  let σ' := (upsert now i token a sec cb t σ).2 in
  wsStorage σ' = wsStorage σ ∧ sockets σ' = sockets σ ∧ closures σ' = closures σ
  ∧ intervals σ' = intervals σ ∧ timeouts σ' = timeouts σ ∧ queries σ' = queries σ.
Proof.
  unfold upsert. destruct (Registration_findOne (table σ) (i, a, t)); simpl; auto 10.
Qed.

(** An accepted request with the store up: the route upserts, then calls
    [connectForUser] on the model, which validates. *)
Lemma register_accepted (now : Z) b u token a sec σ :
  accepted b u →
  b_access_token b = Some token → b_app_id b = Some a → b_app_secret b = Some sec →
  db_up σ = true →
  let up := upsert now (toLowerCase u) token a sec (b_callback_url b) (b_tag b) σ in
  register now b σ = (Status 202 None, (connectForUser up.1 up.2).2)
  ∧ validates up.1.
Proof.
  intros (Hu & Hi & Ht & Ha) Etok Eapp Esec Hup up. subst up.
  unfold register. rewrite Hu, Hi, Ht, Ha, Hup, Etok, Eapp, Esec. simpl.
  destruct (upsert_findOne now (toLowerCase u) token a sec (b_callback_url b) (b_tag b) σ)
    as (_ & id & Em).
  destruct (upsert now (toLowerCase u) token a sec (b_callback_url b) (b_tag b) σ)
    as [model σ1]. simpl in *. split; [reflexivity|].
  subst model. split; simpl.
  - rewrite Eapp, Esec in Ha. exact Ha.
  - exact Hi.
Qed.

(** X7.  An accepted [/register], the store answering, leaves the
    registration stored under its key with [lastUpdate] set to the time of
    the request and with the token, secret and callback of the request,
    whether the row existed before or not; and a socket is then registered
    under the registration's key. *)
Theorem register_stores_and_connects (now : Z) b u token a sec σ :
  accepted b u →
  b_access_token b = Some token → b_app_id b = Some a → b_app_secret b = Some sec →
  db_up σ = true →
  let σ' := (register now b σ).2.1 in
  ∃ id,
    Registration_findOne (table σ') (toLowerCase u, a, b_tag b) =
    Some (mkRegistration id now (toLowerCase u) token a sec (b_callback_url b) (b_tag b))
    ∧ is_Some (wsStorage σ' !! ws_key_of (toLowerCase u) a (b_tag b)).
Proof.
  intros Hacc Etok Eapp Esec Hup σ'. subst σ'.
  destruct (register_accepted now b u token a sec σ Hacc Etok Eapp Esec Hup) as [-> Hv].
  destruct (upsert_findOne now (toLowerCase u) token a sec (b_callback_url b) (b_tag b) σ)
    as (Hfind & id & Em).
  set (up := upsert now (toLowerCase u) token a sec (b_callback_url b) (b_tag b) σ) in *.
  exists id.
  change ((Status 202 None, (connectForUser up.1 up.2).2).2.1)
    with ((connectForUser up.1 up.2).2.1).
  split.
  - rewrite (connectForUser_valid_table _ _ Hv), Hfind, Em. reflexivity.
  - assert (ws_key up.1 = ws_key_of (toLowerCase u) a (b_tag b)) as Hk
      by (rewrite Em; reflexivity).
    rewrite <- Hk. apply connectForUser_valid_registered, Hv.
Qed.

(** X8.  An accepted [/register] for a key that already has a socket in
    the registry renews the row and nothing else: no socket is constructed
    or closed, the closures (and with them the token and the callback the
    live session uses) stay as they were, no timer changes, and no outbound
    call is made. *)
Theorem register_renews_live_session (now : Z) b u token a sec σ ws :
  accepted b u →
  b_access_token b = Some token → b_app_id b = Some a → b_app_secret b = Some sec →
  db_up σ = true →
  wsStorage σ !! ws_key_of (toLowerCase u) a (b_tag b) = Some ws →
  let σ' := (register now b σ).2.1 in
  (register now b σ).2.2 = []
  ∧ wsStorage σ' = wsStorage σ ∧ sockets σ' = sockets σ ∧ closures σ' = closures σ
  ∧ intervals σ' = intervals σ ∧ timeouts σ' = timeouts σ
  ∧ ∃ id, Registration_findOne (table σ') (toLowerCase u, a, b_tag b) =
          Some (mkRegistration id now (toLowerCase u) token a sec
                               (b_callback_url b) (b_tag b)).
Proof.
  intros Hacc Etok Eapp Esec Hup Hws σ'. subst σ'.
  destruct (register_accepted now b u token a sec σ Hacc Etok Eapp Esec Hup) as [-> Hv].
  destruct (upsert_findOne now (toLowerCase u) token a sec (b_callback_url b) (b_tag b) σ)
    as (Hfind & id & Em).
  destruct (upsert_frame now (toLowerCase u) token a sec (b_callback_url b) (b_tag b) σ)
    as (Fw & Fs & Fc & Fi & Ft & _).
  set (up := upsert now (toLowerCase u) token a sec (b_callback_url b) (b_tag b) σ) in *.
  assert (wsStorage up.2 !! ws_key up.1 = Some ws) as E.
  { rewrite Em, Fw. exact Hws. }
  simpl. unfold connectForUser. rewrite E. simpl.
  repeat (split; [assumption || reflexivity|]).
  exists id. rewrite Hfind, Em. reflexivity.
Qed.

(** X9.  [/unregister] checks the app credentials only.  With wrong
    credentials it answers 400 and does nothing.  With right ones it
    answers 202; when the table has no row for the key it does nothing,
    even if a session of that key is live; when it has one, the socket
    registered under the row's key is removed from the registry and the row
    deleted, while closures, heartbeat intervals and pending reconnects are
    left as they are. *)
Theorem unregister_cases b u σ :
  b_instance_url b = Some u →
  (∀ err, checkAppId appMap (b_app_id b) (b_app_secret b) = Some err →
     unregister b σ = (Status 400 (Some err), (σ, [])))
  ∧ (∀ a, b_app_id b = Some a →
       checkAppId appMap (b_app_id b) (b_app_secret b) = None →
       db_up σ = true →
       (Registration_findOne (table σ) (toLowerCase u, a, b_tag b) = None →
          unregister b σ = (Status 202 None, (σ, [])))
       ∧ (∀ r, Registration_findOne (table σ) (toLowerCase u, a, b_tag b) = Some r →
            let σ' := (unregister b σ).2.1 in
            (unregister b σ).1 = Status 202 None
            ∧ wsStorage σ' !! ws_key r = None
            ∧ (∀ x, x ∈ table σ' → r_id x ≠ r_id r)
            ∧ closures σ' = closures σ ∧ intervals σ' = intervals σ
            ∧ timeouts σ' = timeouts σ)).
Proof.
  intros Hu. split.
  - intros err Herr. unfold unregister. rewrite Hu, Herr. reflexivity.
  - intros a Ha Hok Hup. split.
    + intros Hnone. unfold unregister. rewrite Hu, Hok, Hup, Ha. simpl.
      rewrite Hnone. reflexivity.
    + intros r Hr σ'. subst σ'.
      assert (unregister b σ = (Status 202 None, disconnectForUser r σ)) as ->.
      { unfold unregister. rewrite Hu, Hok, Hup, Ha. simpl. rewrite Hr. reflexivity. }
      simpl. split; [reflexivity|].
      destruct (disconnectForUser_frame r σ) as (Hc & Hi & Ht & _).
      split; [rewrite disconnectForUser_wsStorage; apply lookup_delete_eq|].
      split; [|auto].
      intros x Hx. rewrite disconnectForUser_table, Hup in Hx.
      eapply filter_id_absent, Hx.
Qed.

End Routes.

(** ** The URL of the socket *)

Section Rewriting.

Context (appMap : gmap string AppEntry) (instanceMap : gmap string InstanceEntry).

Local Abbreviation connectForUser := (connectForUser appMap instanceMap).
Local Abbreviation validates := (validates appMap instanceMap).

Lemma validates_truthy_url registration :
  validates registration → truthy (Some (instanceUrl registration)) = true.
Proof.
  intros [_ Hi]. unfold checkInstanceUrl in Hi.
  destruct (truthy (Some (instanceUrl registration))); [reflexivity|discriminate Hi].
Qed.

(** X10.  Where a validated registration is connected to.  If the
    instance has an entry of its own with a non-empty [replaceUrl], the
    socket goes to that URL, while the registry key keeps the instance URL
    of the registration.  In every other case (an entry without
    [replaceUrl], or an instance admitted by the wildcard entry only,
    whatever [replaceUrl] the wildcard entry has) the socket goes to the
    instance URL itself. *)
Theorem connectForUser_target registration σ :
  wsStorage σ !! ws_key registration = None →
  validates registration →
  (∀ e r, instanceMap !! instanceUrl registration = Some e →
          replaceUrl e = Some r → r ≠ "" →
          (connectForUser registration σ).2.2 =
            [WsConnect (length (sockets σ)) (streaming_url r (accessToken registration))]
          ∧ wsStorage (connectForUser registration σ).2.1 !! ws_key registration =
            Some (length (sockets σ)))
  ∧ ((instanceMap !! instanceUrl registration = None
      ∨ ∃ e, instanceMap !! instanceUrl registration = Some e
             ∧ (replaceUrl e = None ∨ replaceUrl e = Some "")) →
     (connectForUser registration σ).2.2 =
       [WsConnect (length (sockets σ))
          (streaming_url (instanceUrl registration) (accessToken registration))]).
Proof.
  intros Hnone Hv.
  pose proof (validates_truthy_url registration Hv) as Htruthy.
  rewrite (connectForUser_valid appMap instanceMap registration σ Hnone Hv).
  unfold connect_url, getReplaceUrl. rewrite Htruthy. simpl. split.
  - intros e r He Hr Hne. rewrite He, Hr. simpl.
    rewrite bool_decide_eq_false_2 by exact Hne. simpl.
    split; [reflexivity|apply lookup_insert_eq].
  - intros [He|(e & He & [Hr|Hr])]; rewrite He; [reflexivity|rewrite Hr..]; reflexivity.
Qed.

End Rewriting.

(** ** Sockets and the registry along an execution *)

Lemma sockets_persist_refl σ : sockets_persist σ σ.
Proof. intros ws w H. eauto. Qed.

Lemma sockets_persist_trans σ1 σ2 σ3 :
  sockets_persist σ1 σ2 → sockets_persist σ2 σ3 → sockets_persist σ1 σ3.
Proof.
  intros H12 H23 ws w H.
  destruct (H12 ws w H) as (w2 & H2 & Hu2 & Ho2).
  destruct (H23 ws w2 H2) as (w3 & H3 & Hu3 & Ho3).
  exists w3. split; [exact H3|]. split; congruence.
Qed.

Lemma sockets_persist_same σ σ' : sockets σ' = sockets σ → sockets_persist σ σ'.
Proof. intros E ws w H. rewrite E. eauto. Qed.

Lemma sockets_persist_alter (f : Socket → Socket) i σ σ' :
  (∀ w, s_url (f w) = s_url w ∧ s_owner (f w) = s_owner w) →
  sockets σ' = alter f i (sockets σ) → sockets_persist σ σ'.
Proof.
  intros Hf E ws w H. rewrite E.
  destruct (decide (i = ws)) as [->|Hne].
  - rewrite list_lookup_alter_eq, H. simpl. exists (f w). split; [reflexivity|apply Hf].
  - rewrite list_lookup_alter_ne by exact Hne. eauto.
Qed.

Lemma sockets_persist_app l σ σ' :
  sockets σ' = sockets σ ++ l → sockets_persist σ σ'.
Proof.
  intros E ws w H. rewrite E. exists w. split; [|auto].
  rewrite lookup_app_l; [exact H|]. eapply lookup_lt_Some, H.
Qed.

Lemma quiet_refl σ : quiet σ σ.
Proof.
  split; [apply closures_advance_refl|]. split; [apply sockets_persist_refl|auto].
Qed.

Lemma quiet_trans σ1 σ2 σ3 : quiet σ1 σ2 → quiet σ2 σ3 → quiet σ1 σ3.
Proof.
  intros (A1 & B1 & C1) (A2 & B2 & C2).
  split; [eapply closures_advance_trans; eassumption|].
  split; [eapply sockets_persist_trans; eassumption|auto].
Qed.

Lemma quiet_frame σ σ' :
  closures σ' = closures σ → sockets σ' = sockets σ → wsStorage σ' = wsStorage σ →
  quiet σ σ'.
Proof.
  intros Hc Hs Hw.
  split; [apply closures_advance_same, Hc|].
  split; [apply sockets_persist_same, Hs|]. rewrite Hw. auto.
Qed.

Lemma keeps_refl σ : keeps σ σ.
Proof.
  split; [apply closures_advance_refl|]. split; [apply sockets_persist_refl|auto].
Qed.

Lemma keeps_trans σ1 σ2 σ3 : keeps σ1 σ2 → keeps σ2 σ3 → keeps σ1 σ3.
Proof.
  intros (A1 & B1 & C1) (A2 & B2 & C2).
  split; [eapply closures_advance_trans; eassumption|].
  split; [eapply sockets_persist_trans; eassumption|auto].
Qed.

Lemma quiet_keeps σ σ' : quiet σ σ' → keeps σ σ'.
Proof.
  intros (Hadv & Hper & Hsub). split; [exact Hadv|]. split; [exact Hper|].
  intros Hok k ws Hk.
  destruct (Hok k ws (Hsub k ws Hk)) as (w & cl & Hw & Hcl & Hkey).
  destruct (Hper ws w Hw) as (w' & Hw' & _ & Ho).
  destruct (Hadv _ _ Hcl) as (cl' & Hcl' & Hr & _).
  exists w', cl'. rewrite Ho, Hr. auto.
Qed.

Lemma disconnectForUser_quiet registration σ :
  quiet σ (disconnectForUser registration σ).1.
Proof.
  split; [apply closures_advance_same, disconnectForUser_frame|]. split.
  - pose proof (disconnectForUser_sockets registration σ) as Hs.
    destruct (wsStorage σ !! ws_key registration) as [ws|].
    + eapply sockets_persist_alter; [|exact Hs]. intros w. simpl. auto.
    + apply sockets_persist_same, Hs.
  - intros k ws. rewrite disconnectForUser_wsStorage.
    intros H. apply lookup_delete_Some in H. tauto.
Qed.

Lemma clearInterval_quiet h σ : quiet σ (clearInterval h σ).
Proof. destruct h; apply quiet_frame; reflexivity. Qed.

Lemma close_quiet c σ : quiet σ (close c σ).1.
Proof.
  unfold close. destruct (closures σ !! c) as [cl|]; [|apply quiet_refl].
  eapply quiet_trans; [apply clearInterval_quiet|apply disconnectForUser_quiet].
Qed.

Lemma onClose_quiet c code σ : quiet σ (onClose c code σ).1.
Proof.
  unfold onClose. destruct (bool_decide (code = 1000%Z)); [apply close_quiet|].
  apply quiet_frame; reflexivity.
Qed.

Lemma onFound_quiet c now r σ : quiet σ (onFound c now r σ).1.
Proof.
  unfold onFound. destruct r as [row|]; [|apply close_quiet].
  destruct (_ >=? _)%Z; [apply close_quiet|apply quiet_refl].
Qed.

Lemma onOpen_quiet c ws σ : quiet σ (onOpen c ws σ).1.
Proof.
  split; [apply onOpen_advance|].
  unfold onOpen. destruct (readyState <$> sockets σ !! ws) as [[| | |]|]; simpl;
    (split; [apply sockets_persist_refl || (apply sockets_persist_same; reflexivity)|auto]).
Qed.

Lemma heartbeat_tick_quiet c ws now σ : quiet σ (heartbeat_tick c ws now σ).1.
Proof.
  split; [apply heartbeat_tick_advance|].
  unfold heartbeat_tick. destruct (closures σ !! c); [|split; [apply sockets_persist_refl|auto]].
  destruct (_ >=? _)%Z; simpl;
    (split; [apply sockets_persist_refl || (apply sockets_persist_same; reflexivity)|auto]).
Qed.

Lemma set_readyState_quiet ws rs σ : quiet σ (set_readyState ws rs σ).
Proof.
  split; [apply closures_advance_same; reflexivity|]. split; [|auto].
  eapply sockets_persist_alter; [|reflexivity]. intros w. simpl. auto.
Qed.

Section Registry.

Context (appMap : gmap string AppEntry) (instanceMap : gmap string InstanceEntry)
        (toLowerCase : string → string).

Local Abbreviation connectForUser := (connectForUser appMap instanceMap).
Local Abbreviation reconnect := (reconnect instanceMap).
Local Abbreviation step := (step appMap instanceMap toLowerCase).
Local Abbreviation exec := (exec appMap instanceMap toLowerCase).
Local Abbreviation register := (register appMap instanceMap toLowerCase).

Lemma reconnect_keeps c σ : keeps σ (reconnect c σ).1.
Proof.
  split; [apply closures_advance_same, reconnect_closures|].
  unfold reconnect. destruct (closures σ !! c) as [cl|] eqn:E;
    [|split; [apply sockets_persist_refl|auto]].
  destruct (clearInterval_frame (heartbeat cl) σ) as (Hw & Hs & Hc & _).
  split.
  - eapply sockets_persist_app. simpl. rewrite Hs. reflexivity.
  - intros Hok k ws. simpl. rewrite Hw, Hs, Hc.
    destruct (decide (ws_key (c_registration cl) = k)) as [<-|Hne].
    + rewrite lookup_insert_eq. intros [= <-].
      eexists _, cl. rewrite lookup_app_r by lia. rewrite Nat.sub_diag. simpl.
      split; [reflexivity|]. split; [exact E|reflexivity].
    + rewrite lookup_insert_ne by exact Hne. intros Hk.
      destruct (Hok k ws Hk) as (w & cl' & Hw' & Hcl' & Hkey).
      exists w, cl'. split; [|auto].
      rewrite lookup_app_l; [exact Hw'|]. eapply lookup_lt_Some, Hw'.
Qed.

Lemma connectForUser_keeps registration σ : keeps σ (connectForUser registration σ).2.1.
Proof.
  unfold connectForUser.
  destruct (wsStorage σ !! ws_key registration); [apply keeps_refl|].
  set (σ0 := set_closures _ σ).
  assert (keeps σ σ0) as H0.
  { apply quiet_keeps. split; [|split; [apply sockets_persist_same; reflexivity|auto]].
    intros c cl H. exists cl. split; [|split; [reflexivity|lia]].
    subst σ0; simpl. rewrite lookup_app_l; [exact H|]. eapply lookup_lt_Some, H. }
  destruct (truthy (checkAppId _ _ _)); simpl.
  { eapply keeps_trans; [exact H0|apply quiet_keeps, close_quiet]. }
  destruct (truthy (checkInstanceUrl _ _)); simpl.
  { eapply keeps_trans; [exact H0|apply quiet_keeps, close_quiet]. }
  eapply keeps_trans; [exact H0|apply reconnect_keeps].
Qed.

Lemma restore_rows_keeps rows σ e :
  keeps σ (foldl (fun acc registration =>
             let '(_, (σ', e)) := connectForUser registration acc.1 in
             (σ', acc.2 ++ e)) (σ, e) rows).1.
Proof.
  revert σ e. induction rows as [|r rows IH]; intros σ e; simpl; [apply keeps_refl|].
  pose proof (connectForUser_keeps r σ) as Hr.
  destruct (connectForUser r σ) as [ret [σ' e']]; simpl in *.
  eapply keeps_trans; [exact Hr|apply IH].
Qed.

Lemma register_keeps now b σ : keeps σ (register now b σ).2.1.
Proof.
  unfold register.
  destruct (b_instance_url b); [|apply keeps_refl].
  destruct (checkInstanceUrl _ _); [apply keeps_refl|].
  destruct (checkAccessToken _); [apply keeps_refl|].
  destruct (checkAppId _ _ _); [apply keeps_refl|].
  destruct (db_up σ); [|apply keeps_refl].
  match goal with |- context [upsert ?n ?i ?k ?a ?s ?c ?t σ] =>
    destruct (upsert_frame n i k a s c t σ) as (Fw & Fs & Fc & _);
    destruct (upsert n i k a s c t σ) as [model σ1] end.
  simpl in *.
  apply (keeps_trans σ σ1); [apply quiet_keeps, quiet_frame; assumption|].
  apply connectForUser_keeps.
Qed.

Lemma unregister_keeps b σ : keeps σ (unregister appMap toLowerCase b σ).2.1.
Proof.
  unfold unregister.
  destruct (b_instance_url b); [|apply keeps_refl].
  destruct (checkAppId _ _ _); [apply keeps_refl|].
  destruct (db_up σ); [|apply keeps_refl].
  destruct (Registration_findOne _ _); [|apply keeps_refl].
  apply quiet_keeps, disconnectForUser_quiet.
Qed.

Lemma step_keeps ev σ σ' e : step ev σ = Some (σ', e) → keeps σ σ'.
Proof.
  destruct ev; simpl; intros H.
  - destruct (sockets σ !! ws) as [w|]; [|discriminate]; simpl in H.
    destruct (bool_decide _); [|discriminate].
    injection H as H. apply (f_equal fst) in H; simpl in H. subst σ'.
    apply quiet_keeps.
    eapply quiet_trans; [apply set_readyState_quiet|apply onOpen_quiet].
  - destruct (sockets σ !! ws) as [w|]; [|discriminate]; simpl in H.
    destruct (closures σ !! s_owner w); [|discriminate]; simpl in H.
    destruct (bool_decide _); [|discriminate].
    destruct (onMessage _ _); [|discriminate].
    injection H as <- _. apply keeps_refl.
  - destruct (sockets σ !! ws) as [w|]; [|discriminate]; simpl in H.
    destruct (bool_decide _); [discriminate|].
    injection H as <- _. apply quiet_keeps, quiet_frame; reflexivity.
  - destruct (sockets σ !! ws) as [w|]; [|discriminate]; simpl in H.
    destruct (bool_decide _); [discriminate|].
    injection H as H. apply (f_equal fst) in H; simpl in H. subst σ'.
    apply quiet_keeps.
    eapply quiet_trans; [apply set_readyState_quiet|apply onClose_quiet].
  - destruct (timeouts σ !! k) as [t|]; [|discriminate]; simpl in H.
    injection H as H. apply (f_equal fst) in H; simpl in H. subst σ'.
    eapply keeps_trans; [|apply reconnect_keeps].
    apply quiet_keeps, quiet_frame; reflexivity.
  - destruct (intervals σ !! h) as [iv|]; [|discriminate]; simpl in H.
    destruct (i_active iv); [|discriminate].
    injection H as H. apply (f_equal fst) in H; simpl in H. subst σ'.
    apply quiet_keeps, heartbeat_tick_quiet.
  - destruct (queries σ !! k) as [q|]; [|discriminate]; simpl in H.
    destruct (closures σ !! q_closure q); [|discriminate]; simpl in H.
    destruct (db_up σ).
    + injection H as H. apply (f_equal fst) in H; simpl in H. subst σ'.
      apply quiet_keeps.
      eapply quiet_trans; [|apply onFound_quiet]. apply quiet_frame; reflexivity.
    + injection H as <- _. apply quiet_keeps, quiet_frame; reflexivity.
  - injection H as <- _. apply quiet_keeps, quiet_frame; reflexivity.
  - injection H as H. apply (f_equal fst) in H; simpl in H. subst σ'.
    unfold restore. destruct (db_up σ); [|apply keeps_refl].
    apply restore_rows_keeps.
  - injection H as H. apply (f_equal fst) in H; simpl in H. subst σ'.
    apply register_keeps.
  - injection H as H. apply (f_equal fst) in H; simpl in H. subst σ'.
    apply unregister_keeps.
Qed.

Lemma exec_keeps evs σ σ' e : exec evs σ = Some (σ', e) → keeps σ σ'.
Proof.
  revert σ σ' e. induction evs as [|ev evs IH]; intros σ σ' e; simpl.
  - intros [= <- _]. apply keeps_refl.
  - destruct (step ev σ) as [[σ1 e1]|] eqn:E1; [|discriminate]; simpl.
    destruct (exec evs σ1) as [[σ2 e2]|] eqn:E2; [|discriminate]; simpl.
    intros [= <- _].
    eapply keeps_trans; [eapply step_keeps, E1|eapply IH, E2].
Qed.

(** X11.  Along any execution a socket is never dropped and never
    re-targeted: it keeps its index, its URL and its handlers, and the
    closure that owns the handlers keeps the registration it captured when
    [connectForUser] was called.  So the notifications of a socket go to
    the [callbackUrl] the registration had at that time, whatever is
    registered later. *)
Theorem sockets_keep_their_registration evs σ σ' e ws w cl :
  exec evs σ = Some (σ', e) →
  sockets σ !! ws = Some w →
  closures σ !! s_owner w = Some cl →
  ∃ w' cl',
    sockets σ' !! ws = Some w'
    ∧ s_url w' = s_url w ∧ s_owner w' = s_owner w
    ∧ closures σ' !! s_owner w' = Some cl'
    ∧ c_registration cl' = c_registration cl.
Proof.
  intros Hexec Hw Hcl.
  destruct (exec_keeps _ _ _ _ Hexec) as (Hadv & Hper & _).
  destruct (Hper ws w Hw) as (w' & Hw' & Hu & Ho).
  destruct (Hadv _ _ Hcl) as (cl' & Hcl' & Hr & _).
  exists w', cl'. rewrite Ho. auto.
Qed.

(** X12.  From process start on, the registry is consistent: every entry
    of [wsStorage] is the index of a socket that exists, and that socket
    was constructed by a [connectForUser] call for a registration with
    exactly that registry key. *)
Theorem registry_stays_consistent rows n evs σ e :
  exec evs (boot rows n) = Some (σ, e) → registry_ok σ.
Proof.
  intros Hexec. destruct (exec_keeps _ _ _ _ Hexec) as (_ & _ & Hok).
  apply Hok. intros k ws Hk. simpl in Hk. rewrite lookup_empty in Hk. discriminate.
Qed.

End Registry.

(** ** Process start *)

Lemma NoDup_fmap_eq {A B} (f : A → B) (l : list A) (x y : A) :
  NoDup (f <$> l) → x ∈ l → y ∈ l → f x = f y → x = y.
Proof.
  induction l as [|z l IH]; simpl; intros Hnd Hx Hy Hf.
  - apply elem_of_nil in Hx. contradiction.
  - apply NoDup_cons in Hnd as [Hz Hnd].
    apply elem_of_cons in Hx as [->|Hx]; apply elem_of_cons in Hy as [->|Hy].
    + reflexivity.
    + exfalso. apply Hz. rewrite Hf. apply list_elem_of_fmap_2, Hy.
    + exfalso. apply Hz. rewrite <- Hf. apply list_elem_of_fmap_2, Hx.
    + apply IH; assumption.
Qed.

Section Restoring.

Context (appMap : gmap string AppEntry) (instanceMap : gmap string InstanceEntry).

Local Abbreviation connectForUser := (connectForUser appMap instanceMap).
Local Abbreviation validates := (validates appMap instanceMap).
Local Abbreviation restore := (restore appMap instanceMap).

Lemma validates_or_not registration : validates registration ∨ ¬ validates registration.
Proof.
  unfold validates.
  destruct (decide (checkAppId appMap (Some (appId registration))
                      (Some (appSecret registration)) = None));
    destruct (decide (checkInstanceUrl instanceMap
                        (Some (instanceUrl registration)) = None)); tauto.
Qed.

Lemma connectForUser_invalid registration σ :
  wsStorage σ !! ws_key registration = None →
  ¬ validates registration →
  let σ' := (connectForUser registration σ).2.1 in
  wsStorage σ' = wsStorage σ ∧ db_up σ' = db_up σ
  ∧ table σ' = (if db_up σ
                then filter (fun r => r_id r ≠ r_id registration) (table σ)
                else table σ).
Proof.
  intros Hnone Hnot σ'. subst σ'.
  set (σ0 := set_closures (fun l => l ++ [mkClosure registration None 0]) σ).
  assert (connectForUser registration σ =
          (ReturnedFalse, disconnectForUser registration σ0)) as ->.
  { unfold connectForUser. rewrite Hnone. fold σ0.
    assert (close (length (closures σ)) σ0 = disconnectForUser registration σ0) as Hclose.
    { unfold close. subst σ0; simpl.
      rewrite lookup_app_r by lia. rewrite Nat.sub_diag. reflexivity. }
    destruct (not_validates_truthy appMap instanceMap registration Hnot) as [->|[-> ->]];
      rewrite Hclose; reflexivity. }
  simpl.
  destruct (disconnectForUser_frame registration σ0) as (_ & _ & _ & _ & Hdb).
  rewrite disconnectForUser_wsStorage, disconnectForUser_table, Hdb.
  change (wsStorage σ0) with (wsStorage σ). split; [apply delete_id, Hnone|].
  split; reflexivity.
Qed.

Lemma restore_rows_outcome rows : ∀ σ e0,
  db_up σ = true →
  NoDup (ws_key <$> rows) →
  (∀ r, r ∈ rows → wsStorage σ !! ws_key r = None) →
  let res := (foldl (fun acc registration =>
             let '(_, (σ', e)) := connectForUser registration acc.1 in
             (σ', acc.2 ++ e)) (σ, e0) rows).1 in
  (∀ x, x ∈ table res ↔
        x ∈ table σ ∧ ∀ r, r ∈ rows → ¬ validates r → r_id x ≠ r_id r)
  ∧ (∀ r, r ∈ rows → validates r → is_Some (wsStorage res !! ws_key r))
  ∧ (∀ k, (∀ r, r ∈ rows → validates r → ws_key r ≠ k) →
          wsStorage res !! k = wsStorage σ !! k).
Proof.
  induction rows as [|r rows IH]; intros σ e0 Hup Hnd Hfree; simpl.
  - split; [|split].
    + intros x. split; [intros Hx; split; [exact Hx|]|tauto].
      intros r Hr. apply elem_of_nil in Hr. contradiction.
    + intros r Hr. apply elem_of_nil in Hr. contradiction.
    + reflexivity.
  - apply NoDup_cons in Hnd as [Hr Hnd].
    assert (wsStorage σ !! ws_key r = None) as Hnone by (apply Hfree; left).
    assert (∀ r', r' ∈ rows → ws_key r' ≠ ws_key r) as Hdiff.
    { intros r' Hr' E. apply Hr. rewrite <- E. apply list_elem_of_fmap_2, Hr'. }
    destruct (validates_or_not r) as [Hv|Hv].
    + pose proof (connectForUser_valid appMap instanceMap r σ Hnone Hv) as E.
      destruct (connectForUser r σ) as [ret [σ1 e1]]. injection E as _ -> _.
      match goal with |- context [foldl _ (?s, ?e) rows] =>
        destruct (IH s e) as (IA & IB & IC) end;
        [exact Hup|exact Hnd| |].
      { intros r' Hr'. simpl. rewrite lookup_insert_ne by (apply not_eq_sym, Hdiff, Hr').
        apply Hfree. right. exact Hr'. }
      simpl in IA, IB, IC. split; [|split].
      * intros x. rewrite IA. split; intros [Hx Hids]; (split; [exact Hx|]).
        -- intros r' Hr' Hinv. apply elem_of_cons in Hr' as [->|Hr'];
             [contradiction|apply Hids; assumption].
        -- intros r' Hr' Hinv. apply Hids; [right; exact Hr'|exact Hinv].
      * intros r' Hr' Hv'. apply elem_of_cons in Hr' as [->|Hr']; [|apply IB; assumption].
        rewrite IC; [rewrite lookup_insert_eq; eauto|].
        intros r' Hr' _. apply Hdiff, Hr'.
      * intros k Hk. rewrite IC by (intros r' Hr' Hv'; apply Hk; [right|]; assumption).
        apply lookup_insert_ne, Hk; [left|exact Hv].
    + destruct (connectForUser_invalid r σ Hnone Hv) as (Ew & Edb & Et).
      rewrite Hup in Et.
      destruct (connectForUser r σ) as [ret [σ1 e1]]. simpl in Ew, Edb, Et.
      match goal with |- context [foldl _ (?s, ?e) rows] =>
        destruct (IH s e) as (IA & IB & IC) end;
        [simpl; congruence|exact Hnd| |].
      { intros r' Hr'. simpl. rewrite Ew. apply Hfree. right. exact Hr'. }
      simpl in IA, IB, IC. split; [|split].
      * intros x. rewrite IA, Et, list_elem_of_filter.
        split.
        -- intros [[Hid Hx] Hids]. split; [exact Hx|].
           intros r' Hr' Hinv. apply elem_of_cons in Hr' as [->|Hr'];
             [exact Hid|apply Hids; assumption].
        -- intros [Hx Hids]. split; [split; [|exact Hx]|].
           ++ apply Hids; [left|exact Hv].
           ++ intros r' Hr' Hinv. apply Hids; [right; exact Hr'|exact Hinv].
      * intros r' Hr' Hv'. apply elem_of_cons in Hr' as [->|Hr'];
          [contradiction|apply IB; assumption].
      * intros k Hk. rewrite IC by (intros r' Hr' Hv'; apply Hk; [right|]; assumption).
        rewrite Ew. reflexivity.
Qed.

(** X13.  Process start on a table whose rows have distinct primary keys
    and distinct registry keys, the store answering: the rows that fail the
    app or the instance check are deleted from the table and get no
    session; every other row is kept and has a socket in the registry
    under its key. *)
Theorem restore_keeps_exactly_the_valid σ :
  db_up σ = true →
  wsStorage σ = ∅ →
  NoDup (r_id <$> table σ) →
  NoDup (ws_key <$> table σ) →
  let σ' := (restore σ).1 in
  (∀ x, x ∈ table σ' ↔ x ∈ table σ ∧ validates x)
  ∧ (∀ r, r ∈ table σ → validates r → is_Some (wsStorage σ' !! ws_key r))
  ∧ (∀ r, r ∈ table σ → ¬ validates r → wsStorage σ' !! ws_key r = None).
Proof.
  intros Hup Hempty Hids Hkeys σ'. subst σ'. unfold restore, restore_rows. rewrite Hup.
  destruct (restore_rows_outcome (table σ) σ [] Hup Hkeys) as (HA & HB & HC).
  { intros r _. rewrite Hempty. apply lookup_empty. }
  split; [|split].
  - intros x. rewrite HA. split; intros [Hx H]; (split; [exact Hx|]).
    + destruct (validates_or_not x) as [Hv|Hv]; [exact Hv|].
      exfalso. exact (H x Hx Hv eq_refl).
    + intros r Hr Hinv E. apply Hinv.
      rewrite <- (NoDup_fmap_eq r_id (table σ) x r Hids Hx Hr E). exact H.
  - exact HB.
  - intros r Hr Hinv. rewrite HC; [rewrite Hempty; apply lookup_empty|].
    intros r' Hr' Hv' E. apply Hinv.
    rewrite <- (NoDup_fmap_eq ws_key (table σ) r' r Hkeys Hr' Hr E). exact Hv'.
Qed.

End Restoring.

(** ** Who writes the table *)

Lemma disconnectForUser_table_subseteq registration σ :
  table (disconnectForUser registration σ).1 ⊆ table σ.
Proof.
  rewrite disconnectForUser_table. destruct (db_up σ); [|reflexivity].
  intros x Hx. apply list_elem_of_filter in Hx. tauto.
Qed.

Lemma close_table_subseteq c σ : table (close c σ).1 ⊆ table σ.
Proof.
  unfold close. destruct (closures σ !! c) as [cl|]; [|reflexivity].
  etransitivity; [apply disconnectForUser_table_subseteq|].
  destruct (clearInterval_frame (heartbeat cl) σ) as (_ & _ & _ & _ & _ & -> & _).
  reflexivity.
Qed.

Section Writers.

Context (appMap : gmap string AppEntry) (instanceMap : gmap string InstanceEntry)
        (toLowerCase : string → string).

Local Abbreviation connectForUser := (connectForUser appMap instanceMap).
Local Abbreviation step := (step appMap instanceMap toLowerCase).
Local Abbreviation exec := (exec appMap instanceMap toLowerCase).

Lemma reconnect_table c σ : table (reconnect instanceMap c σ).1 = table σ.
Proof.
  unfold reconnect. destruct (closures σ !! c) as [cl|]; [|reflexivity].
  simpl. apply clearInterval_frame.
Qed.

Lemma connectForUser_table_subseteq registration σ :
  table (connectForUser registration σ).2.1 ⊆ table σ.
Proof.
  unfold connectForUser.
  destruct (wsStorage σ !! ws_key registration); [reflexivity|].
  destruct (truthy (checkAppId _ _ _)); simpl; [exact (close_table_subseteq _ _)|].
  destruct (truthy (checkInstanceUrl _ _)); simpl; [exact (close_table_subseteq _ _)|].
  rewrite reconnect_table. reflexivity.
Qed.

Lemma restore_rows_table_subseteq rows σ e :
  table (foldl (fun acc registration =>
             let '(_, (σ', e)) := connectForUser registration acc.1 in
             (σ', acc.2 ++ e)) (σ, e) rows).1 ⊆ table σ.
Proof.
  revert σ e. induction rows as [|r rows IH]; intros σ e; simpl; [reflexivity|].
  pose proof (connectForUser_table_subseteq r σ) as Hr.
  destruct (connectForUser r σ) as [ret [σ' e']]; simpl in *.
  etransitivity; [apply IH|exact Hr].
Qed.

Lemma step_table_subseteq ev σ σ' e :
  step ev σ = Some (σ', e) →
  (∀ now b, ev ≠ PostRegister now b) →
  table σ' ⊆ table σ.
Proof.
  intros H Hev. destruct ev; simpl in H.
  - destruct (sockets σ !! ws) as [w|]; [|discriminate]; simpl in H.
    destruct (bool_decide _); [|discriminate].
    injection H as H. apply (f_equal fst) in H; simpl in H. subst σ'.
    unfold onOpen; simpl.
    destruct (readyState <$> alter _ ws (sockets σ) !! ws) as [[| | |]|]; reflexivity.
  - destruct (sockets σ !! ws) as [w|]; [|discriminate]; simpl in H.
    destruct (closures σ !! s_owner w); [|discriminate]; simpl in H.
    destruct (bool_decide _); [|discriminate].
    destruct (onMessage _ _); [|discriminate].
    injection H as <- _. reflexivity.
  - destruct (sockets σ !! ws) as [w|]; [|discriminate]; simpl in H.
    destruct (bool_decide _); [discriminate|].
    injection H as <- _. reflexivity.
  - destruct (sockets σ !! ws) as [w|]; [|discriminate]; simpl in H.
    destruct (bool_decide _); [discriminate|].
    injection H as H. apply (f_equal fst) in H; simpl in H. subst σ'.
    unfold onClose. destruct (bool_decide (code = 1000%Z)); [|reflexivity].
    exact (close_table_subseteq _ _).
  - destruct (timeouts σ !! k) as [t|]; [|discriminate]; simpl in H.
    injection H as H. apply (f_equal fst) in H; simpl in H. subst σ'.
    rewrite reconnect_table. reflexivity.
  - destruct (intervals σ !! h) as [iv|]; [|discriminate]; simpl in H.
    destruct (i_active iv); [|discriminate].
    injection H as H. apply (f_equal fst) in H; simpl in H. subst σ'.
    unfold heartbeat_tick. destruct (closures σ !! i_closure iv); [|reflexivity].
    destruct (_ >=? _)%Z; reflexivity.
  - destruct (queries σ !! k) as [q|]; [|discriminate]; simpl in H.
    destruct (closures σ !! q_closure q); [|discriminate]; simpl in H.
    destruct (db_up σ).
    + injection H as H. apply (f_equal fst) in H; simpl in H. subst σ'.
      unfold onFound. destruct (Registration_findOne _ _) as [row|].
      * destruct (_ >=? _)%Z; [|reflexivity].
        exact (close_table_subseteq _ _).
      * exact (close_table_subseteq _ _).
    + injection H as <- _. reflexivity.
  - injection H as <- _. reflexivity.
  - injection H as H. apply (f_equal fst) in H; simpl in H. subst σ'.
    unfold restore. destruct (db_up σ); [|reflexivity].
    apply restore_rows_table_subseteq.
  - exfalso. exact (Hev now b eq_refl).
  - injection H as H. apply (f_equal fst) in H; simpl in H. subst σ'.
    unfold unregister.
    destruct (b_instance_url b); [|reflexivity].
    destruct (checkAppId _ _ _); [reflexivity|].
    destruct (db_up σ); [|reflexivity].
    destruct (Registration_findOne _ _); [|reflexivity].
    apply disconnectForUser_table_subseteq.
Qed.

(** X14.  Only [/register] writes rows.  Along an execution without a
    [/register] request every row of the table is a row the table had at
    the beginning, unchanged: the sessions, the timers, process start and
    [/unregister] may delete registrations but never add or renew one. *)
Theorem only_register_writes_rows evs σ σ' e :
  exec evs σ = Some (σ', e) →
  (∀ now b, PostRegister now b ∉ evs) →
  table σ' ⊆ table σ.
Proof.
  revert σ σ' e. induction evs as [|ev evs IH]; intros σ σ' e; simpl.
  - intros [= <- _] _. reflexivity.
  - destruct (step ev σ) as [[σ1 e1]|] eqn:E1; [|discriminate]; simpl.
    destruct (exec evs σ1) as [[σ2 e2]|] eqn:E2; [|discriminate]; simpl.
    intros [= <- _] Hno.
    etransitivity; [eapply IH; [exact E2|]|eapply step_table_subseteq; [exact E1|]].
    + intros now b Hin. apply (Hno now b). right. exact Hin.
    + intros now b ->. apply (Hno now b). left.
Qed.

End Writers.

(** ** Deliveries along an execution *)

Lemma posts_app e1 e2 : posts (e1 ++ e2) = posts e1 ++ posts e2.
Proof. apply List.filter_app. Qed.

Lemma onMessage_posts registration data e :
  onMessage registration data = Json.Done e → posts e = e.
Proof.
  unfold onMessage. destruct data as [json|]; [|discriminate].
  destruct (Json.prop json "event") as [ev|]; [|discriminate].
  destruct (negb _); [intros [= <-]; reflexivity|].
  destruct (Json.prop json "payload"); [|discriminate].
  intros [= <-]. reflexivity.
Qed.

Lemma disconnectForUser_posts registration σ :
  posts (disconnectForUser registration σ).2 = [].
Proof.
  rewrite disconnectForUser_effects.
  destruct (wsStorage σ !! ws_key registration); reflexivity.
Qed.

Lemma close_posts c σ : posts (close c σ).2 = [].
Proof.
  unfold close. destruct (closures σ !! c); [apply disconnectForUser_posts|reflexivity].
Qed.

Section Deliveries.

Context (appMap : gmap string AppEntry) (instanceMap : gmap string InstanceEntry)
        (toLowerCase : string → string).

Local Abbreviation connectForUser := (connectForUser appMap instanceMap).
Local Abbreviation step := (step appMap instanceMap toLowerCase).
Local Abbreviation exec := (exec appMap instanceMap toLowerCase).

Lemma reconnect_posts c σ : posts (reconnect instanceMap c σ).2 = [].
Proof. unfold reconnect. destruct (closures σ !! c); reflexivity. Qed.

Lemma connectForUser_posts registration σ :
  posts (connectForUser registration σ).2.2 = [].
Proof.
  unfold connectForUser.
  destruct (wsStorage σ !! ws_key registration); [reflexivity|].
  destruct (truthy (checkAppId _ _ _)); simpl; [apply close_posts|].
  destruct (truthy (checkInstanceUrl _ _)); simpl; [apply close_posts|].
  apply reconnect_posts.
Qed.

Lemma restore_rows_posts rows σ e :
  posts (foldl (fun acc registration =>
             let '(_, (σ', e)) := connectForUser registration acc.1 in
             (σ', acc.2 ++ e)) (σ, e) rows).2 = posts e.
Proof.
  revert σ e. induction rows as [|r rows IH]; intros σ e; simpl; [reflexivity|].
  pose proof (connectForUser_posts r σ) as Hr.
  destruct (connectForUser r σ) as [ret [σ' e']]; simpl in *.
  rewrite IH, posts_app, Hr. apply app_nil_r.
Qed.

Lemma step_posts ev σ σ1 e1 σ2 :
  step ev σ = Some (σ1, e1) → keeps σ1 σ2 → posts e1 = delivery σ2 ev.
Proof.
  intros H (Hadv & Hper & _). destruct ev; simpl in H.
  - destruct (sockets σ !! ws) as [w|]; [|discriminate]; simpl in H.
    destruct (bool_decide _); [|discriminate].
    injection H as H. apply (f_equal snd) in H; simpl in H. subst e1.
    unfold onOpen. destruct (readyState <$> _) as [[| | |]|]; reflexivity.
  - destruct (sockets σ !! ws) as [w|] eqn:Ew; [|discriminate]; simpl in H.
    destruct (closures σ !! s_owner w) as [cl|] eqn:Ecl; [|discriminate]; simpl in H.
    destruct (bool_decide _); [|discriminate].
    destruct (onMessage (c_registration cl) data) as [e0|] eqn:Em; [|discriminate].
    injection H as <- <-.
    destruct (Hper ws w Ew) as (w' & Hw' & _ & Ho).
    destruct (Hadv _ _ Ecl) as (cl' & Hcl' & Hr & _).
    simpl. rewrite Hw', Ho, Hcl', Hr, Em. eapply onMessage_posts, Em.
  - destruct (sockets σ !! ws) as [w|]; [|discriminate]; simpl in H.
    destruct (bool_decide _); [discriminate|].
    injection H as _ <-. reflexivity.
  - destruct (sockets σ !! ws) as [w|]; [|discriminate]; simpl in H.
    destruct (bool_decide _); [discriminate|].
    injection H as H. apply (f_equal snd) in H; simpl in H. subst e1.
    unfold onClose. destruct (bool_decide (code = 1000%Z)); [apply close_posts|reflexivity].
  - destruct (timeouts σ !! k) as [t|]; [|discriminate]; simpl in H.
    injection H as H. apply (f_equal snd) in H; simpl in H. subst e1.
    apply reconnect_posts.
  - destruct (intervals σ !! h) as [iv|]; [|discriminate]; simpl in H.
    destruct (i_active iv); [|discriminate].
    injection H as H. apply (f_equal snd) in H; simpl in H. subst e1.
    unfold heartbeat_tick. destruct (closures σ !! i_closure iv); [|reflexivity].
    destruct (_ >=? _)%Z; reflexivity.
  - destruct (queries σ !! k) as [q|]; [|discriminate]; simpl in H.
    destruct (closures σ !! q_closure q); [|discriminate]; simpl in H.
    destruct (db_up σ).
    + injection H as H. apply (f_equal snd) in H; simpl in H. subst e1.
      unfold onFound. destruct (Registration_findOne _ _) as [row|]; [|apply close_posts].
      destruct (_ >=? _)%Z; [apply close_posts|reflexivity].
    + injection H as _ <-. reflexivity.
  - injection H as _ <-. reflexivity.
  - injection H as H. apply (f_equal snd) in H; simpl in H. subst e1.
    unfold restore. destruct (db_up σ); [|reflexivity].
    apply restore_rows_posts.
  - injection H as H. apply (f_equal snd) in H; simpl in H. subst e1.
    unfold register.
    destruct (b_instance_url b); [|reflexivity].
    destruct (checkInstanceUrl _ _); [reflexivity|].
    destruct (checkAccessToken _); [reflexivity|].
    destruct (checkAppId _ _ _); [reflexivity|].
    destruct (db_up σ); [|reflexivity].
    destruct (upsert _ _ _ _ _ _ _ _) as [model σ0]. simpl.
    apply connectForUser_posts.
  - injection H as H. apply (f_equal snd) in H; simpl in H. subst e1.
    unfold unregister.
    destruct (b_instance_url b); [|reflexivity].
    destruct (checkAppId _ _ _); [reflexivity|].
    destruct (db_up σ); [|reflexivity].
    destruct (Registration_findOne _ _); [|reflexivity].
    apply disconnectForUser_posts.
Qed.

(** X15.  The HTTP POSTs of an execution are exactly the deliveries of
    its frames, in the order the frames arrived: one POST for each
    notification envelope, to the callback of the registration its socket
    was constructed for, and none for any other event. *)
Theorem posts_follow_the_frames evs σ σ' e :
  exec evs σ = Some (σ', e) →
  posts e = flat_map (delivery σ') evs.
Proof.
  revert σ σ' e. induction evs as [|ev evs IH]; intros σ σ' e; simpl.
  - intros [= <- <-]. reflexivity.
  - destruct (step ev σ) as [[σ1 e1]|] eqn:E1; [|discriminate]; simpl.
    destruct (exec evs σ1) as [[σ2 e2]|] eqn:E2; [|discriminate]; simpl.
    intros [= <- <-]. rewrite posts_app. f_equal.
    + eapply step_posts; [exact E1|]. eapply exec_keeps, E2.
    + eapply IH, E2.
Qed.

End Deliveries.

(** ** Retrying after an error *)

Section Retrying.

Context (appMap : gmap string AppEntry) (instanceMap : gmap string InstanceEntry)
        (toLowerCase : string → string).

Local Abbreviation exec := (exec appMap instanceMap toLowerCase).
Local Abbreviation connect_url := (connect_url instanceMap).

(** X16.  An ['error'] on a socket that is not closed, followed by the
    timeout it scheduled: the closure reconnects to the same URL with the
    same token, the new socket replaces the registry entry of the key, the
    closure's heartbeat is cleared, no timeout stays pending from the pair,
    and the table is not touched. *)
Theorem socket_error_retries σ ws w cl :
  sockets σ !! ws = Some w →
  readyState w ≠ CLOSED →
  closures σ !! s_owner w = Some cl →
  ∃ σ',
    exec [SocketError ws; TimeoutFires (length (timeouts σ))] σ =
      Some (σ', [WsConnect (length (sockets σ)) (connect_url (c_registration cl))])
    ∧ table σ' = table σ
    ∧ timeouts σ' = timeouts σ
    ∧ wsStorage σ' = <[ws_key (c_registration cl) := length (sockets σ)]> (wsStorage σ)
    ∧ sockets σ' = sockets σ ++ [mkSocket (connect_url (c_registration cl))
                                   (s_owner w) CONNECTING]
    ∧ (∀ h iv, heartbeat cl = Some h → intervals σ' !! h = Some iv → i_active iv = false).
Proof.
  intros Hw Hopen Hcl.
  assert (step appMap instanceMap toLowerCase (SocketError ws) σ =
          Some (schedule_reconnect (s_owner w) σ, [])) as E1.
  { simpl. rewrite Hw. simpl. rewrite bool_decide_eq_false_2 by exact Hopen. reflexivity. }
  set (σ1 := schedule_reconnect (s_owner w) σ) in *.
  set (σ2 := set_timeouts (delete (length (timeouts σ))) σ1).
  assert (timeouts σ2 = timeouts σ) as Ht.
  { subst σ2 σ1. simpl. rewrite (delete_middle (timeouts σ) []). apply app_nil_r. }
  assert (step appMap instanceMap toLowerCase (TimeoutFires (length (timeouts σ))) σ1 =
          Some (reconnect instanceMap (s_owner w) σ2)) as E2.
  { simpl. rewrite lookup_app_r by lia. rewrite Nat.sub_diag. reflexivity. }
  assert (reconnect instanceMap (s_owner w) σ2 =
          (set_wsStorage <[ws_key (c_registration cl) := length (sockets σ)]>
             (set_sockets (fun l => l ++ [mkSocket (connect_url (c_registration cl))
                                            (s_owner w) CONNECTING])
                (clearInterval (heartbeat cl) σ2)),
           [WsConnect (length (sockets σ)) (connect_url (c_registration cl))])) as Er.
  { unfold reconnect. change (closures σ2) with (closures σ). rewrite Hcl.
    destruct (heartbeat cl); reflexivity. }
  eexists. split.
  { unfold exec. rewrite E1. cbn -[step]. rewrite E2. cbn -[reconnect]. rewrite Er.
    reflexivity. }
  destruct (clearInterval_frame (heartbeat cl) σ2) as (Fw & Fs & _ & Ft & _ & Fta & _).
  simpl. rewrite Fw, Fs, Ft, Fta, Ht. repeat split.
  intros h iv Hh Hiv. rewrite Hh in Hiv. eapply clearInterval_inactive, Hiv.
Qed.

End Retrying.

(** ** The registry key, on registrations *)

(** X17.  Two registrations whose [appId] and [tag] contain no [:] and
    that have the same registry key have the same registration key: within
    such registrations a session is never shared. *)
Theorem ws_key_injective_without_colon (r1 r2 : Registration) :
  ¬ occurs ":"%char (appId r1) → ¬ occurs ":"%char (tag r1) →
  ¬ occurs ":"%char (appId r2) → ¬ occurs ":"%char (tag r2) →
  ws_key r1 = ws_key r2 → reg_key r1 = reg_key r2.
Proof.
  intros H1 H2 H3 H4 E. unfold reg_key.
  apply (ws_key_of_injective_without_colon _ _ _ _ _ _ H1 H2 H3 H4 E).
Qed.

(** * The further properties on the concrete deployment *)

Section FurtherScenarios.

Local Abbreviation connectForUser := (connectForUser Example.appMap Example.instanceMap).
Local Abbreviation exec := (exec Example.appMap Example.instanceMap Example.toLowerCase).
Local Abbreviation register := (register Example.appMap Example.instanceMap Example.toLowerCase).
Local Abbreviation unregister := (unregister Example.appMap Example.toLowerCase).

Lemma no_colon_app1 : ¬ occurs ":"%char "app1".
Proof. simpl. intros H. repeat destruct H as [H|H]; try discriminate H; exact H. Qed.

Lemma no_colon_t1 : ¬ occurs ":"%char "t1".
Proof. simpl. intros H. repeat destruct H as [H|H]; try discriminate H; exact H. Qed.

Lemma ws_key_injective_without_colon_witness :
  reg_key Example.registration = reg_key Example.bad_token.
Proof.
  exact (ws_key_injective_without_colon Example.registration Example.bad_token
           no_colon_app1 no_colon_t1 no_colon_app1 no_colon_t1 eq_refl).
Defined.

Lemma example_validates : validates Example.appMap Example.instanceMap Example.registration.
Proof. split; vm_compute; reflexivity. Qed.

Lemma example_accepted :
  accepted Example.appMap Example.instanceMap Example.toLowerCase
           Example.body "https://Example.social".
Proof. repeat split; vm_compute; reflexivity. Qed.

(** A row whose secret is not the one configured for its app. *)
Lemma connectForUser_refuses_and_destroys_witness :
  (connectForUser
     (mkRegistration 7 Example.t0 "https://example.social" "abc123" "app1" "stale"
                     "https://client/cb" "t1")
     Example.booted).2.2 = [DbDestroy 7].
Proof.
  refine (proj1 (proj2 (connectForUser_refuses_and_destroys
            Example.appMap Example.instanceMap _ Example.booted eq_refl _))).
  intros [H _]. vm_compute in H. discriminate H.
Defined.

Lemma connectForUser_connects_once_witness :
  (connectForUser Example.registration Example.booted).2.2 = [WsConnect 0 Example.url].
Proof.
  exact (proj1 (proj2 (connectForUser_connects_once
           Example.appMap Example.instanceMap Example.registration Example.booted
           eq_refl example_validates))).
Defined.

Lemma register_accepts_iff_witness :
  (register Example.t0 Example.body Example.booted).1 = Status 202 None.
Proof.
  apply (proj1 (register_accepts_iff Example.appMap Example.instanceMap
                  Example.toLowerCase Example.t0 Example.body Example.booted)).
  exists "https://Example.social". exact example_accepted.
Defined.

Lemma register_stores_and_connects_witness :
  ∃ id,
    Registration_findOne (table (register Example.t0 Example.body (boot [] 1)).2.1)
      ("https://example.social", "app1", "t1") =
    Some (mkRegistration id Example.t0 "https://example.social" "abc123" "app1"
                         "s3cret" "https://client/cb" "t1")
    ∧ is_Some (wsStorage (register Example.t0 Example.body (boot [] 1)).2.1
                 !! Example.key).
Proof.
  exact (register_stores_and_connects Example.appMap Example.instanceMap
           Example.toLowerCase Example.t0 Example.body "https://Example.social"
           "abc123" "app1" "s3cret" (boot [] 1)
           example_accepted eq_refl eq_refl eq_refl eq_refl).
Defined.

Lemma register_renews_live_session_witness :
  (register (Example.t0 + 1000) Example.body Example.opened).2.2 = []
  ∧ sockets (register (Example.t0 + 1000) Example.body Example.opened).2.1
    = sockets Example.opened.
Proof.
  destruct (register_renews_live_session Example.appMap Example.instanceMap
              Example.toLowerCase (Example.t0 + 1000) Example.body
              "https://Example.social" "abc123" "app1" "s3cret" Example.opened 0
              example_accepted eq_refl eq_refl eq_refl eq_refl eq_refl)
    as (He & _ & Hs & _).
  split; [exact He|exact Hs].
Defined.

Lemma unregister_cases_witness :
  unregister Example.body (boot [] 1) = (Status 202 None, (boot [] 1, []))
  ∧ wsStorage (unregister Example.body Example.opened).2.1 !! Example.key = None.
Proof.
  split.
  - refine (proj1 (proj2 (unregister_cases Example.appMap Example.toLowerCase
              Example.body "https://Example.social" (boot [] 1) eq_refl)
              "app1" eq_refl _ eq_refl) eq_refl).
    vm_compute. reflexivity.
  - refine (proj1 (proj2 (proj2 (proj2 (unregister_cases Example.appMap
              Example.toLowerCase Example.body "https://Example.social"
              Example.opened eq_refl) "app1" eq_refl _ eq_refl)
              Example.registration eq_refl))).
    vm_compute. reflexivity.
Defined.

Lemma sockets_keep_their_registration_witness :
  ∃ w' cl',
    sockets Example.opened !! 0 = Some w'
    ∧ s_url w' = Example.url ∧ s_owner w' = 0
    ∧ closures Example.opened !! s_owner w' = Some cl'
    ∧ c_registration cl' = Example.registration.
Proof.
  refine (sockets_keep_their_registration Example.appMap Example.instanceMap
            Example.toLowerCase [SocketOpen 0] Example.connecting Example.opened []
            0 (mkSocket Example.url 0 CONNECTING)
            (mkClosure Example.registration None 0) _ eq_refl eq_refl).
  vm_compute. reflexivity.
Defined.

Lemma registry_stays_consistent_witness : registry_ok Example.opened.
Proof.
  refine (registry_stays_consistent Example.appMap Example.instanceMap
            Example.toLowerCase [Example.registration] 2 [Start; SocketOpen 0]
            Example.opened [WsConnect 0 Example.url] _).
  vm_compute. reflexivity.
Defined.

Lemma restore_keeps_exactly_the_valid_witness :
  is_Some (wsStorage (restore Example.appMap Example.instanceMap Example.booted).1
             !! Example.key).
Proof.
  refine (proj1 (proj2 (restore_keeps_exactly_the_valid Example.appMap
            Example.instanceMap Example.booted eq_refl eq_refl _ _))
            Example.registration _ example_validates).
  - apply NoDup_singleton.
  - apply NoDup_singleton.
  - apply list_elem_of_singleton. reflexivity.
Defined.

Lemma only_register_writes_rows_witness :
  table (set_timeouts (fun ts => ts ++ [mkTimeout 5000 0])
           (set_sockets (alter (fun w => mkSocket (s_url w) (s_owner w) CLOSED) 0)
              Example.opened))
  ⊆ table Example.opened.
Proof.
  refine (only_register_writes_rows Example.appMap Example.instanceMap
            Example.toLowerCase [SocketClose 0 1006] Example.opened _ [] _ _).
  - vm_compute. reflexivity.
  - intros now b H. apply list_elem_of_singleton in H. discriminate H.
Defined.

Lemma posts_follow_the_frames_witness :
  posts [HttpPost "https://client/cb"
           (Json.Object [("instanceUrl", Json.Str "https://example.social");
                         ("tag", Json.Str "t1");
                         ("appId", Json.Str "app1");
                         ("payload", Json.Object [("id", Json.Number 42)])])
           [("Content-Type", "application/json")]] =
  flat_map (delivery Example.opened) [SocketMessage 0 (Some Example.frame)].
Proof.
  refine (posts_follow_the_frames Example.appMap Example.instanceMap
            Example.toLowerCase [SocketMessage 0 (Some Example.frame)]
            Example.opened Example.opened _ _).
  vm_compute. reflexivity.
Defined.

Lemma socket_error_retries_witness :
  ∃ σ', exec [SocketError 0; TimeoutFires 0] Example.opened =
        Some (σ', [WsConnect 1 Example.url])
        ∧ table σ' = [Example.registration].
Proof.
  destruct (socket_error_retries Example.appMap Example.instanceMap Example.toLowerCase
              Example.opened 0 (mkSocket Example.url 0 OPEN)
              (mkClosure Example.registration (Some 0) 0) eq_refl)
    as (σ' & Hexec & Htable & _); [discriminate|reflexivity|].
  exists σ'. split; [exact Hexec|exact Htable].
Defined.

End FurtherScenarios.

(** An instance entry that routes the socket to an address inside the
    LAN. *)
Lemma connectForUser_target_witness :
  (connectForUser Example.appMap
     {[ "https://example.social" := {| replaceUrl := Some "ws://10.0.0.5:4000" |} ]}
     Example.registration Example.booted).2.2 =
  [WsConnect 0 "ws://10.0.0.5:4000/api/v1/streaming/?access_token=abc123&stream=user"].
Proof.
  refine (proj1 (proj1 (connectForUser_target Example.appMap
            {[ "https://example.social" := {| replaceUrl := Some "ws://10.0.0.5:4000" |} ]}
            Example.registration Example.booted eq_refl _)
            {| replaceUrl := Some "ws://10.0.0.5:4000" |} "ws://10.0.0.5:4000"
            eq_refl eq_refl _)).
  - split; vm_compute; reflexivity.
  - discriminate.
Defined.

(** * Close events and the expiry check, on the store *)



Section OnTheStore.

Context (appMap : gmap string AppEntry) (instanceMap : gmap string InstanceEntry)
        (toLowerCase : string → string).

Local Abbreviation step := (step appMap instanceMap toLowerCase).



End OnTheStore.

(** ** On the concrete deployment *)

Section Outliving.

Local Abbreviation step := (step Example.appMap Example.instanceMap Example.toLowerCase).
Local Abbreviation exec := (exec Example.appMap Example.instanceMap Example.toLowerCase).





End Outliving.
